(** * Inventory service: the item and photo lifecycle of [index.js]

    A shallow embedding of the request handlers of [src/index.js] (the
    MySQL-backed server) over an explicit world: the [inventory] table of
    [src/init.sql], the files of the cache directory, and the verdicts of
    the store on the statements sent to it.  The handler of the earlier
    in-memory server kept next to the schema is embedded in [Module Memory]
    where the two servers differ. *)

From stdpp Require Import gmap strings list pretty.
From Stdlib Require Import ZArith Sorted.

Open Scope string_scope.
Open Scope Z_scope.
Open Scope list_scope.

(** ** JavaScript values of a request body

    [req.body] is filled by [express.json], [express.urlencoded] or multer:
    a field is absent ([undefined]) or holds a JSON primitive.  Numbers are
    the integers; arrays and objects are left out. *)

Inductive jsval :=
  | JUndefined
  | JNull
  | JBool (b : bool)
  | JNum (n : Z)
  | JStr (s : string).

#[global] Instance jsval_eq_dec : EqDecision jsval.
Proof. solve_decision. Defined.

(** [!v] is [negb (truthy v)]. *)
Definition truthy (v : jsval) : bool :=
  match v with
  | JUndefined | JNull => false
  | JBool b => b
  | JNum n => negb (Z.eqb n 0)
  | JStr s => negb (String.eqb s "")
  end.

(** [a || b] *)
Definition js_or (a b : jsval) : jsval := if truthy a then a else b.

(** [v === "s"] *)
Definition strict_eq_str (v : jsval) (s : string) : bool :=
  match v with
  | JStr t => String.eqb t s
  | _ => false
  end.

(** A nullable text column read back by the driver: [null] or a string. *)
Definition truthy_col (c : option string) : bool :=
  match c with
  | None => false
  | Some s => negb (String.eqb s "")
  end.

(** [c || ""] on a nullable text column. *)
Definition col_or_empty (c : option string) : string :=
  if truthy_col c then default "" c else "".

(** [`${c}`] on a value that is [null] or a string. *)
Definition template_of (c : option string) : string := default "null" c.

(** The string held by a column that was tested to be set. *)
Definition col_text (c : option string) : string := default "" c.

(** ** The [inventory] table

    [id INT AUTO_INCREMENT PRIMARY KEY], [name VARCHAR(255) NOT NULL],
    [description TEXT], [photo VARCHAR(255)].  The two timestamp columns
    take no part in any handler's decisions and are not carried. *)

Record row := mkRow {
  id : Z;
  name : string;
  description : option string;
  photo : option string;
}.

#[global] Instance row_eq_dec : EqDecision row.
Proof. solve_decision. Defined.

(** A value bound to a [?] placeholder. *)
Inductive sqlval :=
  | SqlNull
  | SqlText (s : string).

#[global] Instance sqlval_eq_dec : EqDecision sqlval.
Proof. solve_decision. Defined.

(** [COALESCE(?, col)]: the first argument unless it is NULL. *)
Definition coalesce (p : sqlval) (col : string) : string :=
  match p with
  | SqlNull => col
  | SqlText s => s
  end.

Definition coalesce_null (p : sqlval) (col : option string) : option string :=
  match p with
  | SqlNull => col
  | SqlText s => Some s
  end.

Definition col_of (p : sqlval) : option string :=
  match p with
  | SqlNull => None
  | SqlText s => Some s
  end.

(** ** The world a handler runs in *)

Record options := mkOptions {
  opt_host : string;
  opt_port : string;
  opt_cache : string;
}.

Record world := mkWorld {
  (** rows of [inventory] in the order a scan of the table yields them *)
  table : list row;
  (** the AUTO_INCREMENT counter: the id the next INSERT receives *)
  auto_inc : Z;
  (** the files that exist: path to content *)
  files : gmap string string;
  (** paths [fs.unlink] cannot remove (no permission, busy) *)
  locked : gset string;
  (** the store's verdict on the statements to come: [true] is a failure
      (connection lost, statement refused); none left means no failure *)
  faults : list bool;
  (** whether the driver refuses an [undefined] bind value (otherwise it
      binds NULL); the driver is not part of the sources *)
  strict_binds : bool;
}.

Definition set_table (t : list row) (w : world) : world :=
  mkWorld t (auto_inc w) (files w) (locked w) (faults w) (strict_binds w).
Definition set_auto_inc (n : Z) (w : world) : world :=
  mkWorld (table w) n (files w) (locked w) (faults w) (strict_binds w).
Definition set_files (f : gmap string string) (w : world) : world :=
  mkWorld (table w) (auto_inc w) f (locked w) (faults w) (strict_binds w).
Definition set_faults (fl : list bool) (w : world) : world :=
  mkWorld (table w) (auto_inc w) (files w) (locked w) fl (strict_binds w).

(** [path.join(options.cache, name)] and [path.resolve(options.cache, name)]
    both designate the file [name] of the cache directory. *)
Definition path_join (dir name : string) : string := dir +:+ "/" +:+ name.

(** ** Effects

    A handler is a computation over the world that returns a value or
    throws, and logs each effect with the world it leaves behind. *)

Inductive event :=
  | EvUpload (path : string)
  | EvSelectAll
  | EvSelect (i : Z)
  | EvInsert (n : string) (d p : option string)
  | EvUpdate (i : Z) (n d : sqlval)
  | EvSetPhoto (i : Z) (p : string)
  | EvDelete (i : Z)
  | EvRefused
  | EvUnlink (path : string)
  | EvExists (path : string).

#[global] Instance event_eq_dec : EqDecision event.
Proof. solve_decision. Defined.

Inductive outcome (A : Type) :=
  | Ret (a : A)
  | Throw.
Arguments Ret {A} a.
Arguments Throw {A}.

Definition log := list (event * world).

Definition M (A : Type) : Type := world → outcome A * world * log.

Definition ret {A} (a : A) : M A := λ w, (Ret a, w, []).

Definition throw {A} : M A := λ w, (Throw, w, []).

Definition bind {A B} (m : M A) (k : A → M B) : M B := λ w,
  match m w with
  | (Ret a, w1, l1) =>
      match k a w1 with
      | (r, w2, l2) => (r, w2, l1 ++ l2)
      end
  | (Throw, w1, l1) => (Throw, w1, l1)
  end.

(** [try { m } catch (error) { h }] *)
Definition try_catch {A} (m : M A) (h : M A) : M A := λ w,
  match m w with
  | (Ret a, w1, l1) => (Ret a, w1, l1)
  | (Throw, w1, l1) =>
      match h w1 with
      | (r, w2, l2) => (r, w2, l1 ++ l2)
      end
  end.

(** One effect: change the world, log it, return a value read off the
    world before the change. *)
Definition effect {A} (e : event) (f : world → world) (v : world → A) : M A :=
  λ w, (Ret (v w), f w, [(e, f w)]).

#[global] Instance M_ret : MRet M := @ret.
#[global] Instance M_bind : MBind M := λ A B k m, bind m k.

Definition world_of {A} (r : outcome A * world * log) : world := r.1.2.
Definition value_of {A} (r : outcome A * world * log) : outcome A := r.1.1.
Definition log_of {A} (r : outcome A * world * log) : log := r.2.

(** ** The store: [db.execute]

    The driver first checks the bind values, then sends the statement; the
    store's verdict on it is the next entry of [faults].  A refused or
    failed statement rejects the awaited promise: the handler's [try]
    block is left through [throw]. *)

Definition bind_param (strict : bool) (v : jsval) : option sqlval :=
  match v with
  | JUndefined => if strict then None else Some SqlNull
  | JNull => Some SqlNull
  | JBool b => Some (SqlText (if b then "1" else "0"))
  | JNum n => Some (SqlText (pretty n))
  | JStr s => Some (SqlText s)
  end.

Definition execute {A} (e : event) (f : world → world) (v : world → A) : M A :=
  λ w,
  match faults w with
  | true :: fl => (Throw, set_faults fl w, [(EvRefused, set_faults fl w)])
  | false :: fl => effect e f v (set_faults fl w)
  | [] => effect e f v w
  end.

(** [SELECT * FROM inventory] *)
Definition select_all : M (list row) :=
  execute EvSelectAll (λ w, w) table.

(** [SELECT * FROM inventory WHERE id = ?] *)
Definition select_by_id (i : Z) : M (list row) :=
  execute (EvSelect i) (λ w, w) (λ w, filter (λ r, id r = i) (table w)).

(** [INSERT INTO inventory (name, description, photo) VALUES (?, ?, ?)];
    the result carries [insertId].  [name] is NOT NULL. *)
Definition insert_row (n d : jsval) (p : option string) : M Z := λ w,
  match bind_param (strict_binds w) n, bind_param (strict_binds w) d with
  | Some (SqlText n'), Some d' =>
      execute (EvInsert n' (col_of d') p)
        (λ w, set_auto_inc (auto_inc w + 1)
                (set_table (table w ++ [mkRow (auto_inc w) n' (col_of d') p]) w))
        auto_inc w
  | _, _ => throw w
  end.

(** [UPDATE inventory SET name = COALESCE(?, name),
     description = COALESCE(?, description) WHERE id = ?] *)
Definition update_row (n d : sqlval) (i : Z) (r : row) : row :=
  if decide (id r = i)
  then mkRow (id r) (coalesce n (name r)) (coalesce_null d (description r)) (photo r)
  else r.

Definition update_fields (n d : jsval) (i : Z) : M unit := λ w,
  match bind_param (strict_binds w) n, bind_param (strict_binds w) d with
  | Some n', Some d' =>
      execute (EvUpdate i n' d')
        (λ w, set_table (update_row n' d' i <$> table w) w) (λ _, ()) w
  | _, _ => throw w
  end.

(** [UPDATE inventory SET photo = ? WHERE id = ?] *)
Definition set_photo_row (p : string) (i : Z) (r : row) : row :=
  if decide (id r = i)
  then mkRow (id r) (name r) (description r) (Some p)
  else r.

Definition update_photo (p : string) (i : Z) : M unit :=
  execute (EvSetPhoto i p)
    (λ w, set_table (set_photo_row p i <$> table w) w) (λ _, ()).

(** [DELETE FROM inventory WHERE id = ?] *)
Definition delete_by_id (i : Z) : M unit :=
  execute (EvDelete i)
    (λ w, set_table (filter (λ r, id r ≠ i) (table w)) w) (λ _, ()).

(** ** The cache directory *)

(** [req.file]: what multer reports of an uploaded part.  [filename] is the
    name multer chose for it, [mimetype] the type the client declared. *)
Record upload := mkUpload {
  filename : string;
  mimetype : string;
  content : string;
}.

(** [upload.single("photo")]: multer writes the uploaded part, if any, into
    [dest] before the handler runs. *)
Definition upload_single (dir : string) (file : option upload) : M unit :=
  match file with
  | None => ret ()
  | Some f =>
      effect (EvUpload (path_join dir (filename f)))
        (λ w, set_files (<[path_join dir (filename f) := content f]> (files w)) w)
        (λ _, ())
  end.

(** [fs.unlink(path, cb)]: the deletion is handed over at the call; the
    world takes it at that point, the earliest it can happen.  The value is
    what the callback receives: whether the file was removed. *)
Definition unlink (path : string) : M bool :=
  effect (EvUnlink path)
    (λ w, if decide (is_Some (files w !! path) ∧ path ∉ locked w)
          then set_files (delete path (files w)) w else w)
    (λ w, bool_decide (is_Some (files w !! path) ∧ path ∉ locked w)).

(** [fs.existsSync(path)] *)
Definition exists_sync (path : string) : M bool :=
  effect (EvExists path) (λ w, w) (λ w, bool_decide (is_Some (files w !! path))).

(** ** Responses *)

Record new_item := mkNewItem {
  ni_id : Z;
  ni_name : jsval;
  ni_description : jsval;
  ni_photo : option string;
}.

(** [{ ...item, photoUrl }] *)
Record item_view := mkView {
  v_id : Z;
  v_name : string;
  v_description : option string;
  v_photo : option string;
  v_photoUrl : option string;
}.

Inductive body :=
  | BError (error : string)
  | BMessage (message : string)
  | BCreated (message : string) (item : new_item)
  | BList (count : nat) (items : list item_view)
  | BView (v : item_view)
  | BUpdated (message : string) (item : option row)
  | BFile (path : string).

Record response := mkResponse {
  status : nat;
  content_type : string;
  payload : body;
}.

#[global] Instance new_item_eq_dec : EqDecision new_item.
Proof. solve_decision. Defined.
#[global] Instance item_view_eq_dec : EqDecision item_view.
Proof. solve_decision. Defined.
#[global] Instance body_eq_dec : EqDecision body.
Proof. solve_decision. Defined.
#[global] Instance response_eq_dec : EqDecision response.
Proof. solve_decision. Defined.

(** [res.status(st).json(b)] *)
Definition json (st : nat) (b : body) : response :=
  mkResponse st "application/json; charset=utf-8" b.

(** [res.setHeader("Content-Type", ct); res.sendFile(path)]: a
    Content-Type set beforehand is the one sent. *)
Definition send_file (ct : string) (path : string) : response :=
  mkResponse 200 ct (BFile path).

Definition database_error : M response :=
  ret (json 500 (BError "Database error")).

(** [item.photo ? `http://localhost:3000/inventory/${item.id}/photo` : null] *)
Definition photo_url (item : row) : option string :=
  if truthy_col (photo item)
  then Some ("http://localhost:3000/inventory/" +:+ pretty (id item) +:+ "/photo")
  else None.

Definition view (item : row) : item_view :=
  mkView (id item) (name item) (description item) (photo item) (photo_url item).

(** ** The handlers of [index.js] *)

(** [app.post("/register", upload.single("photo"), ...)] *)
Definition register (o : options) (inventory_name description : jsval)
    (file : option upload) : M response :=
  upload_single (opt_cache o) file;;
  if negb (truthy inventory_name)
  then mret (json 400 (BError "Missing inventory name"))
  else
    try_catch
      (insertId ← insert_row inventory_name (js_or description (JStr ""))
                   (filename <$> file);
       mret (json 201 (BCreated "Inventory item created successfully"
         (mkNewItem insertId inventory_name (js_or description (JStr ""))
            (filename <$> file)))))
      database_error.

(** [app.get("/inventory", ...)] *)
Definition list_inventory : M response :=
  try_catch
    (rows ← select_all;
     let itemsWithPhotoUrl := view <$> rows in
     mret (json 200 (BList (length itemsWithPhotoUrl) itemsWithPhotoUrl)))
    database_error.

(** [app.get("/inventory/:id", ...)] *)
Definition get_item (i : Z) : M response :=
  try_catch
    (rows ← select_by_id i;
     match rows with
     | [] => mret (json 404 (BError "Item not found"))
     | item :: _ => mret (json 200 (BView (view item)))
     end)
    database_error.

(** [app.put("/inventory/:id", ...)] *)
Definition put_item (i : Z) (name description : jsval) : M response :=
  try_catch
    (rows ← select_by_id i;
     match rows with
     | [] => mret (json 404 (BError "Item not found"))
     | _ :: _ =>
         update_fields name description i;;
         updated ← select_by_id i;
         mret (json 200 (BUpdated "Item updated successfully" (head updated)))
     end)
    database_error.

(** [if (item.photo) { fs.unlink(path.join(options.cache, item.photo), () => {}); }] *)
Definition unlink_photo (o : options) (item : row) : M unit :=
  if truthy_col (photo item)
  then unlink (path_join (opt_cache o) (col_text (photo item)));; mret ()
  else mret ().

(** [app.delete("/inventory/:id", ...)] *)
Definition delete_item (o : options) (i : Z) : M response :=
  try_catch
    (rows ← select_by_id i;
     match rows with
     | [] => mret (json 404 (BError "Item not found"))
     | item :: _ =>
         unlink_photo o item;;
         delete_by_id i;;
         mret (json 200 (BMessage "Item deleted successfully"))
     end)
    database_error.

(** [app.get("/inventory/:id/photo", ...)] *)
Definition get_photo (o : options) (i : Z) : M response :=
  try_catch
    (rows ← select_by_id i;
     match rows with
     | [] => mret (json 404 (BError "Item not found"))
     | item :: _ =>
         if negb (truthy_col (photo item))
         then mret (json 404 (BError "Photo not found"))
         else
           let filePath := path_join (opt_cache o) (col_text (photo item)) in
           present ← exists_sync filePath;
           if negb present
           then mret (json 404 (BError "Photo file missing"))
           else mret (send_file "image/jpeg" filePath)
     end)
    database_error.

(** [app.put("/inventory/:id/photo", upload.single("photo"), ...)] *)
Definition put_photo (o : options) (i : Z) (file : option upload) : M response :=
  upload_single (opt_cache o) file;;
  try_catch
    (rows ← select_by_id i;
     match rows with
     | [] => mret (json 404 (BError "Item not found"))
     | item :: _ =>
         match file with
         | None => mret (json 400 (BError "No photo uploaded"))
         | Some f =>
             unlink_photo o item;;
             update_photo (filename f) i;;
             updated ← select_by_id i;
             mret (json 200 (BUpdated "Photo updated" (head updated)))
         end
     end)
    database_error.

(** [has_photo === "on" || has_photo === "true" || has_photo === "1"] *)
Definition flag_set (has_photo : jsval) : bool :=
  strict_eq_str has_photo "on" || strict_eq_str has_photo "true"
  || strict_eq_str has_photo "1".

Definition newline : string := String (Ascii.ascii_of_nat 10) "".

(** [(result.description || "") + `\nPhoto: ${result.photoUrl}`] *)
Definition annotated (result : item_view) : string :=
  col_or_empty (v_description result) +:+ newline +:+ "Photo: "
  +:+ template_of (v_photoUrl result).

(** [app.post("/search", ...)] *)
Definition search (i : Z) (has_photo : jsval) : M response :=
  try_catch
    (rows ← select_by_id i;
     match rows with
     | [] => mret (json 404 (BError "Item not found"))
     | item :: _ =>
         let result := view item in
         let result :=
           if flag_set has_photo && truthy_col (photo item)
           then mkView (v_id result) (v_name result) (Some (annotated result))
                  (v_photo result) (v_photoUrl result)
           else result in
         mret (json 200 (BView result))
     end)
    database_error.

(** The routes, and the catch-all [app.use] behind them. *)
Inductive request :=
  | PostRegister (inventory_name description : jsval) (file : option upload)
  | ListInventory
  | GetItem (i : Z)
  | PutItem (i : Z) (name description : jsval)
  | DeleteItem (i : Z)
  | GetPhoto (i : Z)
  | PutPhoto (i : Z) (file : option upload)
  | PostSearch (i : Z) (has_photo : jsval)
  | Unmatched.

Definition handle (o : options) (req : request) : M response :=
  match req with
  | PostRegister n d f => register o n d f
  | ListInventory => list_inventory
  | GetItem i => get_item i
  | PutItem i n d => put_item i n d
  | DeleteItem i => delete_item o i
  | GetPhoto i => get_photo o i
  | PutPhoto i f => put_photo o i f
  | PostSearch i h => search i h
  | Unmatched => mret (json 405 (BError "Method Not Allowed"))
  end.

(** The table right after [init.sql]. *)
Definition seeded : list row :=
  [ mkRow 1 "Blue Lady Painting" (Some "Oil painting, size 50x70 cm") None;
    mkRow 2 "Antique Vase"
      (Some "Chinese vase from Ming Dynasty, 18th century") None ].

Definition initial (fs : gmap string string) (lk : gset string)
    (fl : list bool) (strict : bool) : world :=
  mkWorld seeded 3 fs lk fl strict.

(** ** The in-memory server's partial update

    The server kept after the schema in [init.sql] holds the items in an
    array and changes the found object in place. *)

Module Memory.

Record item := mkItem {
  id : Z;
  name : jsval;
  description : jsval;
  photo : option string;
}.

(** [if (name) item.name = name; if (description) item.description = description;] *)
Definition assign (n d : jsval) (it : item) : item :=
  let it := if truthy n then mkItem (id it) n (description it) (photo it) else it in
  if truthy d then mkItem (id it) (name it) d (photo it) else it.

(** [inventory.find((i) => i.id == req.params.id)] yields the first
    match; the assignments act on that element of the array. *)
Fixpoint change_first (i : Z) (f : item → item) (inventory : list item) : list item :=
  match inventory with
  | [] => []
  | it :: rest =>
      if decide (id it = i) then f it :: rest
      else it :: change_first i f rest
  end.

Definition find (i : Z) (inventory : list item) : option item :=
  head (filter (λ it, id it = i) inventory).

(** [app.put("/inventory/:id", ...)]: the status, the item sent back and
    the array afterwards. *)
Definition put_item (i : Z) (n d : jsval) (inventory : list item)
    : nat * option item * list item :=
  match find i inventory with
  | None => (404%nat, None, inventory)
  | Some it => (200%nat, Some (assign n d it), change_first i (assign n d) inventory)
  end.

End Memory.

(** ** Vocabulary of the properties *)

(** [rows[0]] of [SELECT * FROM inventory WHERE id = ?]: the item a request
    on [i] is about, if there is one. *)
Definition find_item (i : Z) (w : world) : option row :=
  head (filter (λ r, id r = i) (table w)).

(** The store accepts the next [k] statements. *)
Definition accepted (k : nat) (fl : list bool) : bool :=
  forallb negb (take k fl).

Definition events (l : log) : list event := fst <$> l.

(** Event [a] occurs in [l] strictly before an occurrence of [b]. *)
Fixpoint precedes (a b : event) (l : list event) : bool :=
  match l with
  | [] => false
  | e :: l => (bool_decide (e = a) && bool_decide (b ∈ l)) || precedes a b l
  end.

(** Row [r] of world [now] references a file of the cache directory that
    existed in [before] and no longer exists in [now]. *)
Definition references_deleted (o : options) (before now : world) (r : row) : bool :=
  match photo r with
  | None => false
  | Some f =>
      bool_decide (is_Some (files before !! path_join (opt_cache o) f))
      && negb (bool_decide (is_Some (files now !! path_join (opt_cache o) f)))
  end.

(** In [now], the row of item [i] references such a file. *)
Definition dangling (o : options) (i : Z) (before now : world) : bool :=
  existsb (λ r, bool_decide (id r = i) && references_deleted o before now r)
    (table now).

(** At no point of the run logged in [l], started in [w], does the row of
    item [i] reference a file the run has already deleted. *)
Definition never_dangling (o : options) (i : Z) (w : world) (l : log) : bool :=
  forallb (λ s, negb (dangling o i w s.2)) l.

(** Photo replacement keeps the old blob until the new reference is in the
    row. *)
Definition replaces_then_deletes (o : options) (i : Z) (f : upload) (w : world) : Prop :=
  let run := put_photo o i (Some f) w in
  never_dangling o i w (log_of run) = true.

(** Item deletion removes the row before it removes the blob [p]. *)
Definition row_then_blob (o : options) (i : Z) (p : string) (w : world) : Prop :=
  precedes (EvDelete i) (EvUnlink p) (events (log_of (delete_item o i w))) = true.

(** Two photo requests answer with the same wire response. *)
Definition same_on_wire (o : options) (i1 : Z) (w1 : world) (i2 : Z) (w2 : world) : Prop :=
  value_of (get_photo o i1 w1) = value_of (get_photo o i2 w2).

(** The note [POST /search] appends for item [item]. *)
Definition photo_note (item : row) : string :=
  newline +:+ "Photo: http://localhost:3000/inventory/" +:+ pretty (id item)
  +:+ "/photo".

(** The URL the listing, the lookup and the search derive for id [i]. *)
Definition fixed_url (i : Z) : string :=
  "http://localhost:3000/inventory/" +:+ pretty i +:+ "/photo".

(** Ids ascend along the table and stay below the counter. *)
Definition ascending (t : list row) : Prop := StronglySorted Z.lt (id <$> t).

Definition well_keyed (w : world) : Prop :=
  ascending (table w) ∧ Forall (λ r, id r < auto_inc w) (table w).

(** The worlds the server can be in: the seeded table, then any requests,
    whatever the files, the locks and the store's verdicts. *)
Inductive reachable (o : options) : world → Prop :=
  | reach_initial fs lk fl strict : reachable o (initial fs lk fl strict)
  | reach_handle w req :
      reachable o w → reachable o (world_of (handle o req w)).

(** A computation keeps a property of the world. *)
Definition keeps (P : world → Prop) {A} (m : M A) : Prop :=
  ∀ w, P w → P (world_of (m w)).

(** Worlds used as examples. *)
Definition opts : options := mkOptions "0.0.0.0" "8080" "./cache".

Definition vase : row := mkRow 1 "Vase" (Some "Ming") (Some "old").

Definition world_with_photo : world :=
  mkWorld [vase] 2 {[ "./cache/old" := "JFIF" ]} ∅ [] true.

Definition world_missing_file : world :=
  mkWorld [vase] 2 ∅ ∅ [] true.

Definition world_without_photo : world := initial ∅ ∅ [] true.

Definition new_upload : upload := mkUpload "new" "image/png" "PNG".

(** ** Vocabulary of the handlers' general behaviour *)

(** The id a request addresses. *)
Definition addressed (req : request) : option Z :=
  match req with
  | GetItem i | PutItem i _ _ | DeleteItem i | GetPhoto i | PutPhoto i _
  | PostSearch i _ => Some i
  | PostRegister _ _ _ | ListInventory | Unmatched => None
  end.

(** The file multer writes for a request, if any. *)
Definition uploaded (req : request) : option upload :=
  match req with
  | PostRegister _ _ file | PutPhoto _ file => file
  | _ => None
  end.

(** The requests whose handler sends no statement that writes and touches
    no file. *)
Definition reads_only (req : request) : bool :=
  match req with
  | ListInventory | GetItem _ | GetPhoto _ | PostSearch _ _ | Unmatched => true
  | _ => false
  end.

(** The answer hands the file at [path] to [res.sendFile], after
    [res.setHeader("Content-Type", "image/jpeg")]; what the library then
    puts on the wire for that path is its own affair. *)
Definition sends_file (r : response) (path : string) : Prop :=
  content_type r = "image/jpeg" ∧ payload r = BFile path.

(** [app.post("/search")] with the id as [req.body] gives it, present or
    not.  The driver checks the bind value before anything is sent; a value
    it binds selects the rows of the id the engine reads it as in
    [WHERE id = ?], which is [reads] (for a value that selects nothing, as
    NULL does, an id no row has). *)
Definition search_body (reads : sqlval → Z) (id has_photo : jsval) : M response :=
  λ w,
  match bind_param (strict_binds w) id with
  | Some p => search (reads p) has_photo w
  | None => try_catch throw database_error w
  end.

(** ** The in-memory server's item lifecycle

    [let inventory = []; let idCounter = 1;] and the handlers that create,
    look up and delete items.  Nothing here can fail: there is no
    store to refuse a statement. *)

Module MemoryServer.

Record state := mkState {
  inventory : list Memory.item;
  idCounter : Z;
  cache : gmap string string;
  stuck : gset string;
}.

Definition start (fs : gmap string string) (lk : gset string) : state :=
  mkState [] 1 fs lk.

(** [res.status(n).send(text)] and [res.json(...)], which answers 200
    unless a status was set. *)
Inductive answer :=
  | Text (status : nat) (text : string)
  | Created (status : nat) (message : string) (item : Memory.item)
  | Found (item : Memory.item) (photoUrl : option string)
  | Message (message : string).

(** multer, as in the other server. *)
Definition store_upload (dir : string) (file : option upload) (st : state) : state :=
  match file with
  | None => st
  | Some f =>
      mkState (inventory st) (idCounter st)
        (<[path_join dir (filename f) := content f]> (cache st)) (stuck st)
  end.

(** [fs.unlink(filePath, (err) => {})] *)
Definition remove_file (path : string) (st : state) : state :=
  if decide (is_Some (cache st !! path) ∧ path ∉ stuck st)
  then mkState (inventory st) (idCounter st) (delete path (cache st)) (stuck st)
  else st.

(** [app.post("/register", upload.single("photo"), ...)] *)
Definition register (o : options) (inventory_name description : jsval)
    (file : option upload) (st : state) : answer * state :=
  let st := store_upload (opt_cache o) file st in
  if negb (truthy inventory_name)
  then (Text 400 "❌ Error: missing inventory name", st)
  else
    let newItem :=
      Memory.mkItem (idCounter st) inventory_name
        (js_or description (JStr "")) (filename <$> file) in
    (Created 201 "✅ Inventory item created successfully" newItem,
     mkState (inventory st ++ [newItem]) (idCounter st + 1) (cache st) (stuck st)).

(** [item.photo ? `/inventory/${item.id}/photo` : null] *)
Definition photo_url (item : Memory.item) : option string :=
  if truthy_col (Memory.photo item)
  then Some ("/inventory/" +:+ pretty (Memory.id item) +:+ "/photo")
  else None.

(** [app.get("/inventory/:id", ...)] *)
Definition get_item (i : Z) (st : state) : answer :=
  match Memory.find i (inventory st) with
  | None => Text 404 "❌ Item not found"
  | Some item => Found item (photo_url item)
  end.

(** [inventory.splice(index, 1)] at the index [findIndex] returns: the
    first item with the id goes, the others stay in order. *)
Fixpoint splice_first (i : Z) (inventory : list Memory.item) : list Memory.item :=
  match inventory with
  | [] => []
  | it :: rest =>
      if decide (Memory.id it = i) then rest else it :: splice_first i rest
  end.

(** [app.delete("/inventory/:id", ...)] *)
Definition delete_item (o : options) (i : Z) (st : state) : answer * state :=
  match Memory.find i (inventory st) with
  | None => (Text 404 "❌ Item not found", st)
  | Some item =>
      let st :=
        if truthy_col (Memory.photo item)
        then remove_file (path_join (opt_cache o) (col_text (Memory.photo item))) st
        else st in
      (Message "🗑️ Item deleted successfully",
       mkState (splice_first i (inventory st)) (idCounter st) (cache st) (stuck st))
  end.

(** The requests of the lifecycle, and the states they lead to. *)
Inductive request :=
  | PostRegister (inventory_name description : jsval) (file : option upload)
  | PutItem (i : Z) (name description : jsval)
  | DeleteItem (i : Z).

Definition handle (o : options) (req : request) (st : state) : state :=
  match req with
  | PostRegister n d f => (register o n d f st).2
  | PutItem i n d =>
      mkState (Memory.put_item i n d (inventory st)).2 (idCounter st)
        (cache st) (stuck st)
  | DeleteItem i => (delete_item o i st).2
  end.

Inductive reachable (o : options) : state → Prop :=
  | reach_start fs lk : reachable o (start fs lk)
  | reach_handle st req : reachable o st → reachable o (handle o req st).

(** Ids ascend along the array and stay below the counter. *)
Definition well_keyed (st : state) : Prop :=
  StronglySorted Z.lt (Memory.id <$> inventory st)
  ∧ Forall (λ it, Memory.id it < idCounter st) (inventory st).

End MemoryServer.

(** * Properties *)

(** ** Helpers on the table *)

Lemma filter_fmap_id (g : row → row) i (l : list row) :
  (∀ r, id (g r) = id r) →
  filter (λ r, id r = i) (g <$> l) = g <$> filter (λ r, id r = i) l.
Proof.
  intros Hg. induction l as [|r l IH]; [reflexivity|].
  rewrite fmap_cons, !filter_cons, Hg.
  destruct (decide (id r = i)); rewrite IH; reflexivity.
Qed.

Lemma set_photo_row_id p i r : id (set_photo_row p i r) = id r.
Proof. unfold set_photo_row. destruct (decide _); reflexivity. Qed.

Lemma update_row_id n d i r : id (update_row n d i r) = id r.
Proof. unfold update_row. destruct (decide _); reflexivity. Qed.

Lemma find_item_rows i w item :
  find_item i w = Some item →
  ∃ rest, filter (λ r, id r = i) (table w) = item :: rest.
Proof.
  unfold find_item. destruct (filter _ (table w)) as [|r l]; [discriminate|].
  intros [= <-]. eauto.
Qed.

Lemma find_item_id i w item : find_item i w = Some item → id item = i.
Proof.
  intros H. destruct (find_item_rows _ _ _ H) as [rest E].
  assert (item ∈ filter (λ r, id r = i) (table w)) as Hin by (rewrite E; left).
  apply list_elem_of_filter in Hin. tauto.
Qed.

Lemma find_item_none i w :
  find_item i w = None → filter (λ r, id r = i) (table w) = [].
Proof.
  unfold find_item. destruct (filter _ (table w)); [reflexivity|discriminate].
Qed.

Lemma truthy_col_some s : s ≠ "" → truthy_col (Some s) = true.
Proof. intros H. simpl. destruct (String.eqb_spec s ""); done. Qed.

(** ** Running a handler *)

(** Split the world into its fields and the store's verdicts into the
    cases the acceptance hypothesis leaves. *)
Ltac split_faults w :=
  let t := fresh "t" in let a := fresh "a" in let fs := fresh "fs" in
  let lk := fresh "lk" in let fl := fresh "fl" in let sb := fresh "sb" in
  destruct w as [t a fs lk fl sb];
  cbn [faults table auto_inc files locked strict_binds] in *;
  unfold accepted in *;
  repeat match goal with
    | H : forallb negb (take (S _) ?l) = true |- _ =>
        is_var l; destruct l as [|[] ?]; cbn [take forallb negb andb] in H;
        try discriminate H
    end.

Ltac unfold_handlers :=
  unfold handle, register, list_inventory, get_item, put_item, delete_item,
    get_photo, put_photo, search, unlink_photo, select_all, select_by_id,
    insert_row, update_fields, update_photo, delete_by_id, upload_single,
    unlink, exists_sync, database_error, find_item in *.

Ltac run :=
  unfold mbind, M_bind, mret, M_ret, bind, try_catch, ret, throw, execute,
    effect, world_of, value_of, log_of, events;
  cbn [faults table auto_inc files locked strict_binds set_table set_files
       set_faults set_auto_inc fst snd bind_param negb].

(** ** Replacing a photo *)

(** C1, as the code has it.  Replacing the photo of an existing item that
    has one, the handler requests the deletion of the old blob before it
    sends the UPDATE that commits the new reference: when the deletion is
    requested the row still references the old blob, and nothing orders
    the deletion after the commit.  When the operation completes, the
    answer is 200, the row references the new blob and the new blob holds
    the uploaded content. *)
Theorem put_photo_unlinks_then_commits o i f w item old :
  accepted 3 (faults w) = true →
  find_item i w = Some item → photo item = Some old → old ≠ "" →
  let run := put_photo o i (Some f) w in
  let p_old := path_join (opt_cache o) old in
  events (log_of run) =
    [EvUpload (path_join (opt_cache o) (filename f)); EvSelect i;
     EvUnlink p_old; EvSetPhoto i (filename f); EvSelect i]
  ∧ (∃ s, log_of run !! 2%nat = Some (EvUnlink p_old, s)
          ∧ find_item i s = Some item)
  ∧ value_of run =
      Ret (json 200 (BUpdated "Photo updated"
        (Some (mkRow i (name item) (description item) (Some (filename f))))))
  ∧ find_item i (world_of run) =
      Some (mkRow i (name item) (description item) (Some (filename f)))
  ∧ (path_join (opt_cache o) (filename f) ≠ p_old →
       files (world_of run) !! path_join (opt_cache o) (filename f)
         = Some (content f)).
Proof.
  intros Hok Hitem Hphoto Hold.
  pose proof (find_item_id _ _ _ Hitem) as Hid.
  destruct (find_item_rows _ _ _ Hitem) as [rest Hrows].
  pose proof (truthy_col_some _ Hold) as Htruthy. rewrite <- Hphoto in Htruthy.
  unfold_handlers. split_faults w.
  all: run; rewrite Hrows; cbn beta iota; rewrite Htruthy; run.
  all: rewrite Hphoto; cbn [col_text default].
  all: destruct (decide _) as [Hd|Hd]; run.
  all: rewrite filter_fmap_id by apply set_photo_row_id.
  all: rewrite Hrows; cbn [fmap list_fmap head app].
  all: unfold set_photo_row; rewrite Hid; rewrite decide_True by reflexivity.
  all: cbn [Datatypes.id fst].
  all: split; [reflexivity|].
  all: split; [eexists; split; [reflexivity | exact Hitem] |].
  all: split; [reflexivity|]; split; [reflexivity|].
  all: first [ intros Hne; rewrite lookup_delete_ne by congruence;
               apply lookup_insert_eq
             | intros _; apply lookup_insert_eq ].
Qed.

Lemma put_photo_unlinks_then_commits_witness :
  accepted 3 (faults world_with_photo) = true
  ∧ find_item 1 world_with_photo = Some vase
  ∧ events (log_of (put_photo opts 1 (Some new_upload) world_with_photo)) =
      [EvUpload "./cache/new"; EvSelect 1; EvUnlink "./cache/old";
       EvSetPhoto 1 "new"; EvSelect 1].
Proof.
  split; [reflexivity|]. split; [reflexivity|].
  apply (put_photo_unlinks_then_commits opts 1 new_upload world_with_photo
           vase "old"); [reflexivity | reflexivity | reflexivity | discriminate].
Defined.

(** C1 as stated fails: with the deletion taking effect where [fs.unlink]
    is called, the earliest it can, the row of item 1 then references
    [./cache/old], which the run has deleted. *)
Lemma put_photo_dangling_window :
  ¬ replaces_then_deletes opts 1 new_upload world_with_photo.
Proof. unfold replaces_then_deletes. vm_compute. discriminate. Qed.

(** The window of the counterexample: the third logged world, when the
    deletion takes effect at the call. *)
Example put_photo_window_world :
  (λ s, (events [s], table s.2, files s.2 !! "./cache/old")) <$>
    log_of (put_photo opts 1 (Some new_upload) world_with_photo) !! 2%nat
  = Some ([EvUnlink "./cache/old"], [vase], None).
Proof. vm_compute. reflexivity. Qed.

(** A store failure on the UPDATE leaves that state for good: the answer is
    500, the row references the old blob and the blob is gone. *)
Example put_photo_failed_update :
  let w := mkWorld [vase] 2 {[ "./cache/old" := "JFIF" ]} ∅ [false; true] true in
  let run := put_photo opts 1 (Some new_upload) w in
  value_of run = Ret (json 500 (BError "Database error"))
  ∧ table (world_of run) = [vase]
  ∧ files (world_of run) !! "./cache/old" = None.
Proof. vm_compute. repeat split. Qed.


(** ** Deleting an item *)

Lemma filter_out_none i (l : list row) :
  filter (λ r, id r = i) (filter (λ r, id r ≠ i) l) = [].
Proof.
  induction l as [|r l IH]; [reflexivity|].
  rewrite filter_cons. destruct (decide (id r ≠ i)) as [H|H]; [|exact IH].
  rewrite filter_cons, decide_False by exact H. exact IH.
Qed.

(** C2, as the code has it.  Deleting an existing item answers 200 and
    removes the row, whatever becomes of the blob; when the item has a
    photo, the deletion of the blob is requested first and the DELETE
    statement is sent after it. *)
Theorem delete_item_blob_then_row o i w item :
  accepted 2 (faults w) = true → find_item i w = Some item →
  let run := delete_item o i w in
  value_of run = Ret (json 200 (BMessage "Item deleted successfully"))
  ∧ find_item i (world_of run) = None
  ∧ (∀ old, photo item = Some old → old ≠ "" →
       events (log_of run) =
         [EvSelect i; EvUnlink (path_join (opt_cache o) old); EvDelete i])
  ∧ (truthy_col (photo item) = false →
       events (log_of run) = [EvSelect i; EvDelete i]).
Proof.
  intros Hok Hitem.
  destruct (find_item_rows _ _ _ Hitem) as [rest Hrows].
  unfold_handlers. split_faults w.
  all: run; rewrite Hrows; cbn beta iota.
  all: destruct (truthy_col (photo item)) eqn:Htruthy; run.
  all: try destruct (decide (_ ∧ _)); run.
  all: rewrite filter_out_none.
  all: repeat split; try discriminate.
  all: intros old Hphoto Hold; rewrite Hphoto in *; try reflexivity.
  all: rewrite truthy_col_some in Htruthy by exact Hold; discriminate.
Qed.

Lemma delete_item_blob_then_row_witness :
  accepted 2 (faults world_with_photo) = true
  ∧ find_item 1 world_with_photo = Some vase
  ∧ value_of (delete_item opts 1 world_with_photo) =
      Ret (json 200 (BMessage "Item deleted successfully"))
  ∧ find_item 1 (world_of (delete_item opts 1 world_with_photo)) = None.
Proof.
  split; [reflexivity|]. split; [reflexivity|].
  pose proof (delete_item_blob_then_row opts 1 world_with_photo vase
                eq_refl eq_refl) as H.
  split; apply H.
Defined.

(** C2 as stated fails: the DELETE does not come before the unlink. *)
Lemma delete_item_unlinks_first :
  ¬ row_then_blob opts 1 "./cache/old" world_with_photo.
Proof. unfold row_then_blob. vm_compute. discriminate. Qed.

(** A blob that cannot be removed does not stop the deletion of the row. *)
Example delete_item_locked_blob :
  let w := mkWorld [vase] 2 {[ "./cache/old" := "JFIF" ]} {[ "./cache/old" ]} [] true in
  value_of (delete_item opts 1 w) =
    Ret (json 200 (BMessage "Item deleted successfully"))
  ∧ table (world_of (delete_item opts 1 w)) = []
  ∧ files (world_of (delete_item opts 1 w)) !! "./cache/old" = Some "JFIF".
Proof. vm_compute. repeat split. Qed.

(** A store failure on the DELETE comes after the blob is gone: the answer
    is 500 and the row stays, referencing the deleted file. *)
Example delete_item_failed_delete :
  let w := mkWorld [vase] 2 {[ "./cache/old" := "JFIF" ]} ∅ [false; true] true in
  let run := delete_item opts 1 w in
  value_of run = Ret (json 500 (BError "Database error"))
  ∧ table (world_of run) = [vase]
  ∧ files (world_of run) !! "./cache/old" = None.
Proof. vm_compute. repeat split. Qed.

(** ** Partial update *)

Lemma put_item_overwrites i n d w item :
  accepted 3 (faults w) = true → find_item i w = Some item →
  find_item i (world_of (put_item i (JStr n) (JStr d) w))
    = Some (mkRow i n (Some d) (photo item)).
Proof.
  intros Hok Hitem.
  pose proof (find_item_id _ _ _ Hitem) as Hid.
  destruct (find_item_rows _ _ _ Hitem) as [rest Hrows].
  unfold_handlers. split_faults w.
  all: run; rewrite Hrows; run.
  all: run.
  all: rewrite filter_fmap_id by apply update_row_id.
  all: rewrite Hrows; cbn [fmap list_fmap head app].
  all: unfold update_row; rewrite Hid, decide_True by reflexivity.
  all: reflexivity.
Qed.

Lemma put_item_null_keeps i w item :
  accepted 3 (faults w) = true → find_item i w = Some item →
  find_item i (world_of (put_item i JNull JNull w)) = Some item.
Proof.
  intros Hok Hitem.
  pose proof (find_item_id _ _ _ Hitem) as Hid.
  destruct (find_item_rows _ _ _ Hitem) as [rest Hrows].
  unfold_handlers. split_faults w.
  all: run; rewrite Hrows; run.
  all: run.
  all: rewrite filter_fmap_id by apply update_row_id.
  all: rewrite Hrows; cbn [fmap list_fmap head app].
  all: unfold update_row; rewrite decide_True by exact Hid.
  all: destruct item; reflexivity.
Qed.

(** An absent field: the driver refuses the statement, or binds NULL. *)
Lemma put_item_undefined_keeps i n d w item :
  (n = JUndefined ∨ d = JUndefined) → strict_binds w = true →
  find_item i w = Some item →
  find_item i (world_of (put_item i n d w)) = Some item.
Proof.
  intros Hnd Hstrict Hitem.
  assert (match bind_param true n, bind_param true d with
          | Some _, Some _ => False | _, _ => True end) as Hbind.
  { destruct Hnd as [-> | ->]; simpl; [done|]. destruct (bind_param true n); done. }
  destruct (find_item_rows _ _ _ Hitem) as [rest Hrows].
  unfold_handlers. destruct w as [t a fs lk fl sb]. simpl in Hstrict, Hrows. subst sb.
  run. destruct fl as [|[] fl]; run.
  2: exact Hitem.
  all: rewrite Hrows; run.
  all: destruct (bind_param true n), (bind_param true d); try done; run.
Qed.

(** C3 on the code: [PUT /inventory/2] with body
    [{"name": "Antique Vase", "description": ""}] on the seeded table sets
    the stored description to the empty string. *)
Theorem put_item_empty_string_clears :
  let w := initial ∅ ∅ [] true in
  let run := put_item 2 (JStr "Antique Vase") (JStr "") w in
  description <$> find_item 2 w
    = Some (Some "Chinese vase from Ming Dynasty, 18th century")
  ∧ value_of run =
      Ret (json 200 (BUpdated "Item updated successfully"
        (Some (mkRow 2 "Antique Vase" (Some "") None))))
  ∧ description <$> find_item 2 (world_of run) = Some (Some "").
Proof. vm_compute. repeat split. Qed.

(** The in-memory server leaves a field alone on an absent or empty value. *)
Lemma memory_assign_keeps n d it :
  (truthy n = false → Memory.name (Memory.assign n d it) = Memory.name it)
  ∧ (truthy d = false →
       Memory.description (Memory.assign n d it) = Memory.description it).
Proof.
  unfold Memory.assign. split; intros H; rewrite H.
  - destruct (truthy d); reflexivity.
  - destruct (truthy n); reflexivity.
Qed.

Lemma memory_put_item_keeps i n d inventory it :
  Memory.find i inventory = Some it →
  ∃ it', Memory.find i (Memory.put_item i n d inventory).2 = Some it'
    ∧ (truthy n = false → Memory.name it' = Memory.name it)
    ∧ (truthy d = false → Memory.description it' = Memory.description it).
Proof.
  intros Hfind. unfold Memory.put_item. rewrite Hfind. simpl.
  exists (Memory.assign n d it). split; [|apply memory_assign_keeps].
  unfold Memory.find in *.
  induction inventory as [|x l IH]; [discriminate|].
  simpl. rewrite filter_cons in Hfind.
  destruct (decide (Memory.id x = i)) as [E|E].
  - injection Hfind as ->. rewrite filter_cons.
    assert (Memory.id (Memory.assign n d it) = i) as E'.
    { unfold Memory.assign. destruct (truthy n), (truthy d); exact E. }
    rewrite decide_True by exact E'. reflexivity.
  - rewrite filter_cons, decide_False by exact E. apply IH, Hfind.
Qed.

(** ** Searching by id *)

Lemma append_length s t :
  String.length (s +:+ t) = (String.length s + String.length t)%nat.
Proof.
  induction s as [|c s IH]; [reflexivity|].
  change (String c s +:+ t) with (String c (s +:+ t)).
  cbn [String.length]. rewrite IH. reflexivity.
Qed.

Lemma append_grows s t : t ≠ "" → s +:+ t ≠ s.
Proof.
  intros Ht E. apply (f_equal String.length) in E.
  rewrite append_length in E. destruct t; [done|]. cbn [String.length] in E. lia.
Qed.

Lemma flag_set_spec h :
  flag_set h = true ↔ h = JStr "on" ∨ h = JStr "true" ∨ h = JStr "1".
Proof.
  unfold flag_set, strict_eq_str. split.
  - destruct h as [| | | |s]; try discriminate.
    rewrite !orb_true_iff, !String.eqb_eq. intuition congruence.
  - intros [-> | [-> | ->]]; reflexivity.
Qed.

Lemma col_or_empty_some s : col_or_empty (Some s) = s.
Proof.
  unfold col_or_empty. simpl. destruct (String.eqb_spec s ""); simpl; congruence.
Qed.

Lemma annotated_view item :
  truthy_col (photo item) = true →
  annotated (view item) = col_or_empty (description item) +:+ photo_note item.
Proof.
  intros H. unfold annotated, view, photo_url, photo_note. simpl.
  rewrite H. reflexivity.
Qed.

Lemma photo_note_grows item :
  description item ≠ Some (col_or_empty (description item) +:+ photo_note item).
Proof.
  destruct (description item) as [d|]; [|discriminate].
  rewrite col_or_empty_some. intros [= E]. symmetry in E. revert E.
  apply append_grows. discriminate.
Qed.

(** C4.  A search on an existing item answers 200; the description sent is
    the stored one followed by the photo note exactly when [has_photo] is
    one of the strings "on", "true", "1" and the item's [photo] is set; the
    table is left as it was, and the lookup that follows shows the stored
    description. *)
Theorem search_annotates_response_only i has_photo w item :
  accepted 2 (faults w) = true → find_item i w = Some item →
  let run := search i has_photo w in
  ∃ result shown,
    value_of run = Ret (json 200 (BView result))
    ∧ (v_description result
         = Some (col_or_empty (description item) +:+ photo_note item)
       ↔ (has_photo = JStr "on" ∨ has_photo = JStr "true" ∨ has_photo = JStr "1")
         ∧ truthy_col (photo item) = true)
    ∧ table (world_of run) = table w
    ∧ value_of (get_item i (world_of run)) = Ret (json 200 (BView shown))
    ∧ v_description shown = description item.
Proof.
  intros Hok Hitem.
  destruct (find_item_rows _ _ _ Hitem) as [rest Hrows].
  exists (if flag_set has_photo && truthy_col (photo item)
          then mkView (id item) (name item) (Some (annotated (view item)))
                 (photo item) (photo_url item)
          else view item), (view item).
  assert ((if flag_set has_photo && truthy_col (photo item)
           then Some (annotated (view item)) else description item)
          = Some (col_or_empty (description item) +:+ photo_note item)
          ↔ (has_photo = JStr "on" ∨ has_photo = JStr "true" ∨ has_photo = JStr "1")
            ∧ truthy_col (photo item) = true) as Hiff.
  { rewrite <- flag_set_spec, <- andb_true_iff.
    destruct (flag_set has_photo && truthy_col (photo item)) eqn:E.
    - apply andb_true_iff in E as [_ E]. rewrite annotated_view by exact E. done.
    - split; [|discriminate]. intros H. destruct (photo_note_grows _ H). }
  unfold_handlers. split_faults w.
  all: run; rewrite Hrows; run.
  all: split; [reflexivity|].
  all: split; [destruct (flag_set has_photo && truthy_col (photo item));
               exact Hiff|].
  all: split; [reflexivity|].
  all: run; rewrite Hrows; run.
  all: split; reflexivity.
Qed.

Lemma search_annotates_response_only_witness :
  accepted 2 (faults world_with_photo) = true
  ∧ find_item 1 world_with_photo = Some vase
  ∧ ∃ result shown,
      value_of (search 1 (JStr "on") world_with_photo)
        = Ret (json 200 (BView result))
      ∧ (v_description result
           = Some (col_or_empty (description vase) +:+ photo_note vase)
         ↔ (JStr "on" = JStr "on" ∨ JStr "on" = JStr "true" ∨ JStr "on" = JStr "1")
           ∧ truthy_col (photo vase) = true)
      ∧ table (world_of (search 1 (JStr "on") world_with_photo))
          = table world_with_photo
      ∧ value_of (get_item 1 (world_of (search 1 (JStr "on") world_with_photo)))
          = Ret (json 200 (BView shown))
      ∧ v_description shown = description vase.
Proof.
  split; [reflexivity|]. split; [reflexivity|].
  apply (search_annotates_response_only 1 (JStr "on") world_with_photo vase);
    reflexivity.
Defined.

(** No other value of the flag annotates: not the boolean, not the number,
    not another spelling. *)
Example search_other_flags :
  (λ h, v_description <$>
     match value_of (search 1 h world_with_photo) with
     | Ret (mkResponse _ _ (BView v)) => Some v
     | _ => None
     end) <$> [JBool true; JNum 1; JStr "ON"; JStr "yes"; JUndefined]
  = replicate 5 (Some (Some "Ming")).
Proof. vm_compute. reflexivity. Qed.

(** ** Fetching a photo *)

(** C5, as the code has it.  On an existing item, a missing photo reference
    and a missing file both answer 404, with different bodies:
    [{"error": "Photo not found"}] and [{"error": "Photo file missing"}]. *)
Theorem get_photo_failures_by_body o i w item :
  accepted 1 (faults w) = true → find_item i w = Some item →
  let answer := value_of (get_photo o i w) in
  (truthy_col (photo item) = false →
     answer = Ret (json 404 (BError "Photo not found")))
  ∧ (∀ p, photo item = Some p → p ≠ "" →
       files w !! path_join (opt_cache o) p = None →
       answer = Ret (json 404 (BError "Photo file missing"))).
Proof.
  intros Hok Hitem.
  destruct (find_item_rows _ _ _ Hitem) as [rest Hrows].
  unfold_handlers. split_faults w.
  all: run; rewrite Hrows; cbn beta iota.
  all: split; [intros ->; reflexivity|].
  all: intros p Hp Hne Hfile; rewrite Hp, truthy_col_some by exact Hne; run.
  all: cbn [col_text default Datatypes.id].
  all: rewrite bool_decide_eq_false_2 by (rewrite Hfile; apply is_Some_None).
  all: reflexivity.
Qed.

Lemma get_photo_failures_by_body_witness :
  accepted 1 (faults world_missing_file) = true
  ∧ find_item 1 world_missing_file = Some vase
  ∧ value_of (get_photo opts 1 world_missing_file)
      = Ret (json 404 (BError "Photo file missing")).
Proof.
  split; [reflexivity|]. split; [reflexivity|].
  apply (get_photo_failures_by_body opts 1 world_missing_file vase
           eq_refl eq_refl) with (p := "old"); [reflexivity | discriminate | reflexivity].
Defined.

Lemma get_photo_failures_differ :
  ¬ same_on_wire opts 1 world_without_photo 1 world_missing_file.
Proof. unfold same_on_wire. vm_compute. discriminate. Qed.

(** The two answers of the counterexample. *)
Example get_photo_two_answers :
  value_of (get_photo opts 1 world_without_photo)
    = Ret (json 404 (BError "Photo not found"))
  ∧ value_of (get_photo opts 1 world_missing_file)
    = Ret (json 404 (BError "Photo file missing")).
Proof. vm_compute. split; reflexivity. Qed.

(** ** Registration *)

Lemma missing_or_empty_is_falsy : truthy JUndefined = false ∧ truthy (JStr "") = false.
Proof. split; reflexivity. Qed.

Lemma bind_truthy strict v :
  truthy v = true → ∃ s, bind_param strict v = Some (SqlText s).
Proof. destruct v; try discriminate; simpl; eauto. Qed.

Lemma bind_or_empty strict v :
  ∃ s, bind_param strict (js_or v (JStr "")) = Some (SqlText s).
Proof.
  unfold js_or. destruct (truthy v) eqn:E; [apply bind_truthy, E|].
  simpl. eauto.
Qed.

(** C6.  A falsy [inventory_name] (absent, or the empty string) answers 400
    and leaves the table as it was.  Otherwise, the INSERT being accepted,
    the answer is 201; the item sent back has the given name, the given
    description, or the empty string for an absent one, and the uploaded
    file's name as [photo], or none without an upload; the row written
    holds the same values. *)
Theorem register_requires_name o inventory_name description file w :
  let run := register o inventory_name description file w in
  (truthy inventory_name = false →
     value_of run = Ret (json 400 (BError "Missing inventory name"))
     ∧ table (world_of run) = table w
     ∧ auto_inc (world_of run) = auto_inc w)
  ∧ (truthy inventory_name = true → accepted 1 (faults w) = true →
     ∃ created n d,
       value_of run =
         Ret (json 201 (BCreated "Inventory item created successfully" created))
       ∧ table (world_of run) =
           table w ++ [mkRow (auto_inc w) n (Some d) (ni_photo created)]
       ∧ ni_id created = auto_inc w
       ∧ ni_name created = inventory_name
       ∧ (∀ s, inventory_name = JStr s → n = s)
       ∧ (description = JUndefined → ni_description created = JStr "" ∧ d = "")
       ∧ (∀ s, description = JStr s → ni_description created = JStr s ∧ d = s)
       ∧ ni_photo created = filename <$> file
       ∧ (is_Some (ni_photo created) ↔ is_Some file)).
Proof.
  split.
  - intros Hname. unfold_handlers. run. rewrite Hname.
    destruct file; repeat split.
  - intros Hname Hok.
    destruct (bind_truthy (strict_binds w) _ Hname) as [n Hn].
    destruct (bind_or_empty (strict_binds w) description) as [d Hd].
    exists (mkNewItem (auto_inc w) inventory_name (js_or description (JStr ""))
              (filename <$> file)), n, d.
    assert (∀ s, inventory_name = JStr s → n = s) as Hgiven.
    { intros s ->. cbn in Hn. congruence. }
    assert (description = JUndefined →
            js_or description (JStr "") = JStr "" ∧ d = "") as Habsent.
    { intros ->. cbn in Hd. split; [reflexivity | congruence]. }
    assert (∀ s, description = JStr s →
            js_or description (JStr "") = JStr s ∧ d = s) as Htext.
    { intros s ->. unfold js_or in *. cbn [truthy] in *.
      destruct (String.eqb s "") eqn:E; rewrite ?E in Hd; cbn in Hd |- *.
      - apply String.eqb_eq in E as ->. split; congruence.
      - split; congruence. }
    assert (is_Some (filename <$> file) ↔ is_Some file) as Hfile
      by apply fmap_is_Some.
    cbn [ni_id ni_name ni_description ni_photo].
    unfold_handlers. run. rewrite Hname. cbn [negb].
    split_faults w.
    all: destruct file as [f|]; run; rewrite Hn, Hd; run.
    all: repeat split; solve [ exact Hgiven | apply Habsent; assumption
                             | apply Htext; assumption | apply Hfile; assumption ].
Qed.

Lemma register_requires_name_witness :
  truthy (JStr "") = false
  ∧ truthy (JStr "Blue Lady Painting") = true
  ∧ accepted 1 (faults (mkWorld [] 1 ∅ ∅ [] true)) = true
  ∧ value_of (register opts (JStr "") (JStr "Oil painting") None
                (mkWorld [] 1 ∅ ∅ [] true))
      = Ret (json 400 (BError "Missing inventory name"))
  ∧ ∃ n d,
      value_of (register opts (JStr "Blue Lady Painting") (JStr "Oil painting")
                  None (mkWorld [] 1 ∅ ∅ [] true))
        = Ret (json 201 (BCreated "Inventory item created successfully"
            (mkNewItem 1 (JStr "Blue Lady Painting") (JStr "Oil painting") None)))
      ∧ table (world_of (register opts (JStr "Blue Lady Painting")
                           (JStr "Oil painting") None (mkWorld [] 1 ∅ ∅ [] true)))
        = [mkRow 1 n (Some d) None].
Proof.
  split; [reflexivity|]. split; [reflexivity|]. split; [reflexivity|].
  split.
  - apply (register_requires_name opts (JStr "") (JStr "Oil painting") None
             (mkWorld [] 1 ∅ ∅ [] true)). reflexivity.
  - destruct (register_requires_name opts (JStr "Blue Lady Painting")
                (JStr "Oil painting") None (mkWorld [] 1 ∅ ∅ [] true))
      as [_ H].
    destruct (H eq_refl eq_refl)
      as (created & n & d & Hv & Ht & _ & _ & Hn & _ & Hd & Hp & _).
    exists n, d. cbn in Hv. injection Hv as <-. cbn in Ht. split; [reflexivity|].
    exact Ht.
Defined.

(** The scenario of the specification: registering without a photo, then
    asking for the photo. *)
Example register_then_photo :
  let w := mkWorld [] 1 ∅ ∅ [] true in
  let run := register opts (JStr "Blue Lady Painting") (JStr "Oil painting") None w in
  table (world_of run) = [mkRow 1 "Blue Lady Painting" (Some "Oil painting") None]
  ∧ value_of (get_photo opts 1 (world_of run))
      = Ret (json 404 (BError "Photo not found")).
Proof. vm_compute. split; reflexivity. Qed.

(** ** Listing: the order of the table *)

Lemma ascending_cons r t :
  ascending (r :: t) ↔ ascending t ∧ Forall (λ x, id r < id x) t.
Proof.
  unfold ascending. rewrite fmap_cons. split.
  - intros H. apply StronglySorted_inv in H as [H1 H2].
    split; [exact H1|]. exact (proj1 (Forall_fmap id (Z.lt (id r)) t) H2).
  - intros [H1 H2]. constructor; [exact H1|].
    exact (proj2 (Forall_fmap id (Z.lt (id r)) t) H2).
Qed.

Lemma ascending_filter (P : row → Prop) `{∀ r, Decision (P r)} t :
  ascending t → ascending (filter P t).
Proof.
  induction t as [|r t IH]; [done|].
  rewrite ascending_cons. intros [Ht Hr]. rewrite filter_cons.
  destruct (decide (P r)); [|auto].
  apply ascending_cons. split; [auto|].
  apply list.Forall_forall. intros x Hx.
  apply list_elem_of_filter in Hx as [_ Hx].
  rewrite list.Forall_forall in Hr. apply Hr, Hx.
Qed.

Lemma ascending_fmap (g : row → row) t :
  (∀ r, id (g r) = id r) → ascending t → ascending (g <$> t).
Proof.
  intros Hg. unfold ascending. rewrite <- list_fmap_compose.
  rewrite (list_fmap_ext (id ∘ g) id t) by (intros; simpl; auto). done.
Qed.

Lemma ascending_snoc t r :
  ascending t → Forall (λ x, id x < id r) t → ascending (t ++ [r]).
Proof.
  induction t as [|x t IH]; intros Ht Hr.
  - apply ascending_cons. split; constructor.
  - apply ascending_cons in Ht as [Ht Hx]. apply Forall_cons in Hr as [Hxr Hr].
    change ((x :: t) ++ [r]) with (x :: (t ++ [r])).
    apply ascending_cons. split; [auto|].
    apply Forall_app. split; [exact Hx|]. constructor; [exact Hxr|constructor].
Qed.

Section Keeps.
Context (P : world → Prop).
Hypothesis P_faults : ∀ fl w, P w → P (set_faults fl w).

Lemma keeps_ret {A} (a : A) : keeps P (mret a).
Proof. intros w H. exact H. Qed.

Lemma keeps_throw {A} : keeps P (@throw A).
Proof. intros w H. exact H. Qed.

Lemma keeps_bind {A B} (m : M A) (k : A → M B) :
  keeps P m → (∀ a, keeps P (k a)) → keeps P (m ≫= k).
Proof.
  intros Hm Hk w H. specialize (Hm w H).
  unfold mbind, M_bind, bind, world_of in *.
  destruct (m w) as [[[a|] w1] l1]; simpl in *; [|exact Hm].
  specialize (Hk a w1 Hm). unfold world_of in Hk.
  destruct (k a w1) as [[r w2] l2]. exact Hk.
Qed.

Lemma keeps_try {A} (m h : M A) :
  keeps P m → keeps P h → keeps P (try_catch m h).
Proof.
  intros Hm Hh w H. specialize (Hm w H).
  unfold try_catch, world_of in *.
  destruct (m w) as [[[a|] w1] l1]; simpl in *; [exact Hm|].
  specialize (Hh w1 Hm). unfold world_of in Hh.
  destruct (h w1) as [[r w2] l2]. exact Hh.
Qed.

Lemma keeps_effect {A} e f (v : world → A) :
  (∀ w, P w → P (f w)) → keeps P (effect e f v).
Proof. intros Hf w H. apply Hf, H. Qed.

Lemma keeps_execute {A} e f (v : world → A) :
  (∀ w, P w → P (f w)) → keeps P (execute e f v).
Proof.
  intros Hf w H. unfold execute, effect, world_of.
  destruct (faults w) as [|[] fl]; simpl; auto.
Qed.
End Keeps.

Lemma well_keyed_faults fl w : well_keyed w → well_keyed (set_faults fl w).
Proof. intros H. exact H. Qed.

Lemma well_keyed_fmap (g : row → row) w :
  (∀ r, id (g r) = id r) → well_keyed w → well_keyed (set_table (g <$> table w) w).
Proof.
  intros Hg [H1 H2]. split; simpl.
  - apply ascending_fmap; assumption.
  - apply (proj2 (Forall_fmap g (λ r, id r < auto_inc w) (table w))).
    eapply Forall_impl; [exact H2|].
    intros r Hr. simpl. rewrite Hg. exact Hr.
Qed.

Lemma well_keyed_filter (Q : row → Prop) `{∀ r, Decision (Q r)} w :
  well_keyed w → well_keyed (set_table (filter Q (table w)) w).
Proof.
  intros [H1 H2]. split; simpl.
  - apply ascending_filter, H1.
  - apply list.Forall_forall. intros x Hx.
    apply list_elem_of_filter in Hx as [_ Hx].
    rewrite list.Forall_forall in H2. apply H2, Hx.
Qed.

Lemma well_keyed_insert n d p w :
  well_keyed w →
  well_keyed (set_auto_inc (auto_inc w + 1)
                (set_table (table w ++ [mkRow (auto_inc w) n d p]) w)).
Proof.
  intros [H1 H2]. split; simpl.
  - apply ascending_snoc; assumption.
  - apply Forall_app. split.
    + eapply Forall_impl; [exact H2|]. intros r Hr. simpl in *. lia.
    + constructor; [simpl; lia|constructor].
Qed.

Lemma keeps_select_all : keeps well_keyed select_all.
Proof. apply keeps_execute; auto using well_keyed_faults. Qed.

Lemma keeps_select_by_id i : keeps well_keyed (select_by_id i).
Proof. apply keeps_execute; auto using well_keyed_faults. Qed.

Lemma keeps_insert_row n d p : keeps well_keyed (insert_row n d p).
Proof.
  intros w H. unfold insert_row.
  destruct (bind_param _ n) as [[|n']|]; try exact H.
  destruct (bind_param _ d) as [d'|]; try exact H.
  apply keeps_execute; auto using well_keyed_faults, well_keyed_insert.
Qed.

Lemma keeps_update_fields n d i : keeps well_keyed (update_fields n d i).
Proof.
  intros w H. unfold update_fields.
  destruct (bind_param _ n) as [n'|]; try exact H.
  destruct (bind_param _ d) as [d'|]; try exact H.
  apply keeps_execute; auto using well_keyed_faults.
  intros w'. apply well_keyed_fmap, update_row_id.
Qed.

Lemma keeps_update_photo p i : keeps well_keyed (update_photo p i).
Proof.
  apply keeps_execute; auto using well_keyed_faults.
  intros w. apply well_keyed_fmap, set_photo_row_id.
Qed.

Lemma keeps_delete_by_id i : keeps well_keyed (delete_by_id i).
Proof.
  apply keeps_execute; auto using well_keyed_faults.
  intros w. apply well_keyed_filter.
Qed.

Lemma keeps_upload_single dir file : keeps well_keyed (upload_single dir file).
Proof. destruct file; [apply keeps_effect|]; auto. intros w H; exact H. Qed.

Lemma keeps_unlink path : keeps well_keyed (unlink path).
Proof. apply keeps_effect. intros w H. destruct (decide _); exact H. Qed.

Lemma keeps_exists_sync path : keeps well_keyed (exists_sync path).
Proof. apply keeps_effect. auto. Qed.

Ltac keep :=
  repeat first
    [ apply keeps_try | apply keeps_bind; [|intros ?] | apply keeps_ret
    | apply keeps_select_all | apply keeps_select_by_id
    | apply keeps_insert_row | apply keeps_update_fields
    | apply keeps_update_photo | apply keeps_delete_by_id
    | apply keeps_upload_single | apply keeps_unlink | apply keeps_exists_sync
    | match goal with
      | |- keeps _ (match ?x with _ => _ end) => destruct x
      end ].

(** Every handler keeps the ids ascending and below the counter. *)
Lemma handle_well_keyed o req : keeps well_keyed (handle o req).
Proof.
  destruct req;
    unfold handle, register, list_inventory, get_item, put_item, delete_item,
      get_photo, put_photo, search, unlink_photo, database_error;
    keep.
Qed.

Lemma initial_well_keyed fs lk fl strict : well_keyed (initial fs lk fl strict).
Proof.
  split; simpl.
  - unfold ascending. simpl. repeat constructor.
  - repeat constructor.
Qed.

Lemma reachable_well_keyed o w : reachable o w → well_keyed w.
Proof.
  induction 1 as [fs lk fl strict | w req _ IH].
  - apply initial_well_keyed.
  - apply handle_well_keyed, IH.
Qed.

(** C7.  In every world the server can reach, listing the items (the
    SELECT being accepted) answers 200 with the rows in the order of the
    table, where every INSERT appends; their ids ascend along the list, and
    [count] is the number of items sent. *)
Theorem list_inventory_in_insertion_order o w :
  reachable o w → accepted 1 (faults w) = true →
  ∃ items,
    value_of (list_inventory w) = Ret (json 200 (BList (length items) items))
    ∧ items = view <$> table w
    ∧ v_id <$> items = id <$> table w
    ∧ StronglySorted Z.lt (v_id <$> items).
Proof.
  intros Hreach Hok. apply reachable_well_keyed in Hreach as [Hasc _].
  exists (view <$> table w).
  assert (v_id <$> (view <$> table w) = id <$> table w) as Hids.
  { rewrite <- list_fmap_compose. reflexivity. }
  rewrite Hids. unfold_handlers. split_faults w; run; repeat split; exact Hasc.
Qed.

Lemma list_inventory_in_insertion_order_witness :
  reachable opts
    (world_of (handle opts (PostRegister (JStr "Lamp") JUndefined None)
                 (initial ∅ ∅ [] true)))
  ∧ ∃ items,
      value_of (list_inventory
        (world_of (handle opts (PostRegister (JStr "Lamp") JUndefined None)
                     (initial ∅ ∅ [] true))))
        = Ret (json 200 (BList (length items) items))
      ∧ v_id <$> items = [1; 2; 3].
Proof.
  split; [apply reach_handle, reach_initial|].
  destruct (list_inventory_in_insertion_order opts
              (world_of (handle opts (PostRegister (JStr "Lamp") JUndefined None)
                           (initial ∅ ∅ [] true)))
              (reach_handle _ _ _ (reach_initial _ _ _ _ _)) eq_refl)
    as (items & Hv & _ & Hids & _).
  exists items. split; [exact Hv | exact Hids].
Defined.

(** Deleting in the middle and registering again keeps the order. *)
Example list_after_delete_and_register :
  let w1 := world_of (handle opts (DeleteItem 1) (initial ∅ ∅ [] true)) in
  let w2 := world_of (handle opts (PostRegister (JStr "Lamp") JUndefined None) w1) in
  id <$> table w2 = [2; 3].
Proof. vm_compute. reflexivity. Qed.

(** ** Replacing the photo of an unknown item *)

(** C8.  A photo upload for an id no row has (the SELECT being accepted)
    answers 404 and leaves the table as it was: the uploaded file stays in
    the cache directory, and no row references its name unless one did
    before the request. *)
Theorem put_photo_unknown_item o i f w :
  accepted 1 (faults w) = true → find_item i w = None →
  let run := put_photo o i (Some f) w in
  value_of run = Ret (json 404 (BError "Item not found"))
  ∧ table (world_of run) = table w
  ∧ files (world_of run) !! path_join (opt_cache o) (filename f) = Some (content f)
  ∧ (Forall (λ r, photo r ≠ Some (filename f)) (table w) →
     Forall (λ r, photo r ≠ Some (filename f)) (table (world_of run))).
Proof.
  intros Hok Hnone. apply find_item_none in Hnone.
  unfold_handlers. split_faults w.
  all: run; rewrite Hnone; run.
  all: repeat split; auto.
  all: apply lookup_insert_eq.
Qed.

Lemma put_photo_unknown_item_witness :
  accepted 1 (faults world_with_photo) = true
  ∧ find_item 99 world_with_photo = None
  ∧ value_of (put_photo opts 99 (Some new_upload) world_with_photo)
      = Ret (json 404 (BError "Item not found"))
  ∧ Forall (λ r, photo r ≠ Some "new")
      (table (world_of (put_photo opts 99 (Some new_upload) world_with_photo))).
Proof.
  split; [reflexivity|]. split; [reflexivity|].
  pose proof (put_photo_unknown_item opts 99 new_upload world_with_photo
                eq_refl eq_refl) as (Hv & _ & _ & Hfresh).
  split; [exact Hv|]. apply Hfresh. repeat constructor. discriminate.
Defined.

(** ** The type a photo is sent with *)

(** C9.  Whatever the world, a photo request answered 200 carries the
    Content-Type [image/jpeg]. *)
Theorem get_photo_content_type o i w r :
  value_of (get_photo o i w) = Ret r → status r = 200%nat →
  content_type r = "image/jpeg".
Proof.
  unfold_handlers. destruct w as [t a fs lk fl sb]. run.
  destruct fl as [|[] fl]; run.
  2: { intros [= <-]. discriminate. }
  all: destruct (filter _ t) as [|item rest]; run; [intros [= <-]; discriminate|].
  all: destruct (truthy_col (photo item)); run; [|intros [= <-]; discriminate].
  all: destruct (bool_decide _); run; intros [= <-]; [reflexivity|discriminate].
Qed.

Lemma get_photo_content_type_witness :
  value_of (get_photo opts 1 world_with_photo)
    = Ret (send_file "image/jpeg" "./cache/old")
  ∧ content_type (send_file "image/jpeg" "./cache/old") = "image/jpeg".
Proof.
  split; [reflexivity|].
  apply (get_photo_content_type opts 1 world_with_photo); reflexivity.
Defined.

(** A file uploaded as [image/png] is sent as [image/jpeg]. *)
Example png_sent_as_jpeg :
  let w := world_of (put_photo opts 1 (Some new_upload) world_with_photo) in
  mimetype new_upload = "image/png"
  ∧ value_of (get_photo opts 1 w) = Ret (send_file "image/jpeg" "./cache/new")
  ∧ files w !! "./cache/new" = Some "PNG".
Proof. vm_compute. repeat split. Qed.

(** ** The derived URL *)

Lemma photo_url_fixed item :
  truthy_col (photo item) = true → photo_url item = Some (fixed_url (id item)).
Proof. intros H. unfold photo_url. rewrite H. reflexivity. Qed.

(** C10.  For an item whose [photo] is set, the listing, the lookup and the
    search (their SELECT being accepted) all send
    [http://localhost:3000/inventory/{id}/photo] as [photoUrl], whatever
    host, port and cache directory the server was started with. *)
Theorem photo_url_ignores_options o w item :
  accepted 1 (faults w) = true → truthy_col (photo item) = true →
  (∀ k, table w !! k = Some item →
     ∃ items v,
       value_of (handle o ListInventory w)
         = Ret (json 200 (BList (length items) items))
       ∧ items !! k = Some v ∧ v_id v = id item
       ∧ v_photoUrl v = Some (fixed_url (id item)))
  ∧ (∀ i, find_item i w = Some item →
     ∃ v, value_of (handle o (GetItem i) w) = Ret (json 200 (BView v))
          ∧ v_photoUrl v = Some (fixed_url (id item)))
  ∧ (∀ i has_photo, find_item i w = Some item →
     ∃ v, value_of (handle o (PostSearch i has_photo) w) = Ret (json 200 (BView v))
          ∧ v_photoUrl v = Some (fixed_url (id item))).
Proof.
  intros Hok Hphoto. pose proof (photo_url_fixed _ Hphoto) as Hurl.
  split; [|split].
  - intros k Hk. exists (view <$> table w), (view item).
    rewrite list_lookup_fmap, Hk.
    unfold_handlers. split_faults w; run; repeat split; exact Hurl.
  - intros i Hitem. destruct (find_item_rows _ _ _ Hitem) as [rest Hrows].
    exists (view item).
    unfold_handlers. split_faults w; run; rewrite Hrows; run;
      (split; [reflexivity | exact Hurl]).
  - intros i h Hitem. destruct (find_item_rows _ _ _ Hitem) as [rest Hrows].
    unfold_handlers. split_faults w; run; rewrite Hrows; run.
    all: destruct (flag_set h && truthy_col (photo item));
      eexists; (split; [reflexivity | exact Hurl]).
Qed.

Lemma photo_url_ignores_options_witness :
  accepted 1 (faults world_with_photo) = true
  ∧ truthy_col (photo vase) = true
  ∧ ∃ v, value_of (handle (mkOptions "example.org" "8443" "/var/cache") (GetItem 1)
                     world_with_photo) = Ret (json 200 (BView v))
         ∧ v_photoUrl v = Some "http://localhost:3000/inventory/1/photo".
Proof.
  split; [reflexivity|]. split; [reflexivity|].
  apply (photo_url_ignores_options (mkOptions "example.org" "8443" "/var/cache")
           world_with_photo vase eq_refl eq_refl). reflexivity.
Defined.

(** * Further properties of the handlers *)

(** Case analysis on everything a run branches on. *)
Ltac branch :=
  repeat (run; match goal with
    | |- context [match ?l with [] => _ | _ :: _ => _ end] =>
        is_var l; destruct l as [|[] ?]
    | |- context [match filter ?P ?t with [] => _ | _ :: _ => _ end] =>
        let E := fresh "Erows" in destruct (filter P t) as [|? ?] eqn:E
    | |- context [truthy_col ?c] =>
        let E := fresh "Ecol" in destruct (truthy_col c) eqn:E
    | |- context [truthy ?c] =>
        let E := fresh "Etruthy" in destruct (truthy c) eqn:E
    | |- context [if decide ?P then _ else _] => destruct (decide P)
    | |- context [bool_decide ?P] =>
        let E := fresh "Efile" in destruct (bool_decide P) eqn:E
    | |- context [match bind_param ?s ?v with _ => _ end] =>
        let E := fresh "Ebind" in destruct (bind_param s v) as [[|?]|] eqn:E
    | |- context [match ?f with Some _ => _ | None => _ end] =>
        is_var f; destruct f
    end); run.

(** No [EvRefused] among concrete events. *)
Ltac not_refused H :=
  cbn [fmap list_fmap app fst] in H;
  repeat (apply elem_of_cons in H as [H|H]; [discriminate H|]);
  apply elem_of_nil in H; destruct H.

(** [EvRefused] is among concrete events. *)
Ltac is_refused :=
  cbn [fmap list_fmap app fst];
  solve [repeat first [apply list_elem_of_here | apply list_elem_of_further]].

(** ** Store failures *)

(** X1.  Whatever the request and the world, once the store refuses a
    statement the answer is 500 with [{"error": "Database error"}]. *)
Theorem refused_statement_answers_500 o req w :
  EvRefused ∈ events (log_of (handle o req w)) →
  value_of (handle o req w) = Ret (json 500 (BError "Database error")).
Proof.
  destruct req as [n d file| |i|i n d|i|i|i file|i h|];
    unfold_handlers; destruct w as [t a fs lk fl sb]; branch.
  all: try reflexivity.
  all: intros H; not_refused H.
Qed.

Lemma refused_statement_answers_500_witness :
  EvRefused ∈ events (log_of (handle opts (DeleteItem 1)
     (mkWorld [vase] 2 ∅ ∅ [false; true] true)))
  ∧ value_of (handle opts (DeleteItem 1)
       (mkWorld [vase] 2 ∅ ∅ [false; true] true))
    = Ret (json 500 (BError "Database error")).
Proof.
  assert (EvRefused ∈ events (log_of (handle opts (DeleteItem 1)
            (mkWorld [vase] 2 ∅ ∅ [false; true] true)))) as H.
  { vm_compute. is_refused. }
  split; [exact H|].
  apply (refused_statement_answers_500 opts (DeleteItem 1)
           (mkWorld [vase] 2 ∅ ∅ [false; true] true) H).
Defined.

Lemma bind_param_none strict v :
  bind_param strict v = None → strict = true ∧ v = JUndefined.
Proof. destruct v, strict; simpl; try discriminate; auto. Qed.

Lemma routed_error_causes o req w :
  value_of (handle o req w) = Ret (json 500 (BError "Database error")) →
  EvRefused ∈ events (log_of (handle o req w))
  ∨ (∃ i n d, req = PutItem i n d ∧ strict_binds w = true
              ∧ (n = JUndefined ∨ d = JUndefined)).
Proof.
  destruct req as [n d file| |i|i n d|i|i|i file|i h|];
    unfold_handlers; destruct w as [t a fs lk fl sb].
  1: { destruct (truthy n) eqn:Etruthy.
       - destruct (bind_truthy sb _ Etruthy) as [n' Hn].
         destruct (bind_or_empty sb d) as [d' Hd].
         destruct file; run; rewrite Hn, Hd; branch.
         all: try discriminate.
         all: intros _; left; is_refused.
       - branch; discriminate. }
  all: branch.
  all: try discriminate.
  all: try (intros _; left; is_refused).
  all: intros _; right; do 3 eexists; split; [reflexivity|].
  all: repeat match goal with
         | H : bind_param _ _ = None |- _ => apply bind_param_none in H as [-> ->]
         end; auto.
Qed.

(** X2.  A 500 answer with [{"error": "Database error"}] has three causes
    and no other: the store refused a statement; the driver refused an
    absent field of a partial update; or the driver refused the absent id
    of a search, in which case no statement is sent at all. *)
Theorem database_error_causes o req reads id has_photo w :
  (value_of (handle o req w) = Ret (json 500 (BError "Database error")) →
     EvRefused ∈ events (log_of (handle o req w))
     ∨ (∃ i n d, req = PutItem i n d ∧ strict_binds w = true
                 ∧ (n = JUndefined ∨ d = JUndefined)))
  ∧ (value_of (search_body reads id has_photo w)
       = Ret (json 500 (BError "Database error")) →
     EvRefused ∈ events (log_of (search_body reads id has_photo w))
     ∨ (strict_binds w = true ∧ id = JUndefined))
  ∧ (strict_binds w = true →
     value_of (search_body reads JUndefined has_photo w)
       = Ret (json 500 (BError "Database error"))
     ∧ log_of (search_body reads JUndefined has_photo w) = []
     ∧ world_of (search_body reads JUndefined has_photo w) = w).
Proof.
  split; [apply routed_error_causes|]. split.
  - unfold search_body. destruct (bind_param (strict_binds w) id) as [p|] eqn:Hbind.
    + intros H500.
      destruct (routed_error_causes o (PostSearch (reads p) has_photo) w H500)
        as [Href | (i & n & d & Hreq & _)]; [left; exact Href | discriminate Hreq].
    + intros _. right. apply bind_param_none in Hbind as [-> ->]. auto.
  - intros Hstrict. unfold search_body. rewrite Hstrict. cbn [bind_param].
    repeat split.
Qed.

Lemma database_error_causes_witness :
  strict_binds world_with_photo = true
  ∧ value_of (search_body (λ _, 0) JUndefined (JStr "on") world_with_photo)
      = Ret (json 500 (BError "Database error"))
  ∧ log_of (search_body (λ _, 0) JUndefined (JStr "on") world_with_photo) = []
  ∧ (value_of (handle opts (PutItem 1 JUndefined (JStr "Qing")) world_with_photo)
       = Ret (json 500 (BError "Database error")) →
     EvRefused ∈ events (log_of (handle opts (PutItem 1 JUndefined (JStr "Qing"))
                                   world_with_photo))
     ∨ (∃ i n d, PutItem 1 JUndefined (JStr "Qing") = PutItem i n d
                 ∧ strict_binds world_with_photo = true
                 ∧ (n = JUndefined ∨ d = JUndefined))).
Proof.
  split; [reflexivity|].
  pose proof (database_error_causes opts (PutItem 1 JUndefined (JStr "Qing"))
                (λ _, 0) JUndefined (JStr "on") world_with_photo)
    as (Hrouted & _ & Habsent).
  destruct (Habsent eq_refl) as (Hv & Hl & _).
  split; [exact Hv|]. split; [exact Hl | exact Hrouted].
Defined.

(** ** Requests that find nothing, or bring nothing *)

(** X3.  A request that addresses an id no row has, its SELECT being
    accepted, answers 404 with [{"error": "Item not found"}]; the table and
    the counter stay as they were, no file is removed, and the only file
    written is the one multer stored for the request. *)
Theorem unknown_id_answers_404 o req i w :
  addressed req = Some i → find_item i w = None →
  accepted 1 (faults w) = true →
  let run := handle o req w in
  value_of run = Ret (json 404 (BError "Item not found"))
  ∧ table (world_of run) = table w
  ∧ auto_inc (world_of run) = auto_inc w
  ∧ files (world_of run) =
      match uploaded req with
      | Some f => <[path_join (opt_cache o) (filename f) := content f]> (files w)
      | None => files w
      end.
Proof.
  intros Haddr Hnone Hok. apply find_item_none in Hnone.
  destruct req as [n d file| |j|j n d|j|j|j file|j h|];
    try discriminate Haddr; injection Haddr as ->;
    unfold_handlers; cbn [uploaded]; split_faults w.
  all: try destruct file as [f|]; run; rewrite Hnone; run.
  all: repeat split.
Qed.

Lemma unknown_id_answers_404_witness :
  addressed (DeleteItem 7) = Some 7
  ∧ find_item 7 world_with_photo = None
  ∧ accepted 1 (faults world_with_photo) = true
  ∧ value_of (handle opts (DeleteItem 7) world_with_photo)
      = Ret (json 404 (BError "Item not found"))
  ∧ files (world_of (handle opts (DeleteItem 7) world_with_photo))
      = files world_with_photo.
Proof.
  split; [reflexivity|]. split; [reflexivity|]. split; [reflexivity|].
  pose proof (unknown_id_answers_404 opts (DeleteItem 7) 7 world_with_photo
                eq_refl eq_refl eq_refl) as (Hv & _ & _ & Hf).
  split; [exact Hv | exact Hf].
Defined.

(** X4.  A photo replacement that brings no file, on an existing item,
    answers 400 with [{"error": "No photo uploaded"}] and touches neither
    the row nor the item's current blob. *)
Theorem put_photo_without_file o i w item :
  find_item i w = Some item → accepted 1 (faults w) = true →
  let run := put_photo o i None w in
  value_of run = Ret (json 400 (BError "No photo uploaded"))
  ∧ table (world_of run) = table w
  ∧ files (world_of run) = files w
  ∧ events (log_of run) = [EvSelect i].
Proof.
  intros Hitem Hok. destruct (find_item_rows _ _ _ Hitem) as [rest Hrows].
  unfold_handlers. split_faults w.
  all: run; rewrite Hrows; run.
  all: repeat split.
Qed.

Lemma put_photo_without_file_witness :
  find_item 1 world_with_photo = Some vase
  ∧ accepted 1 (faults world_with_photo) = true
  ∧ value_of (put_photo opts 1 None world_with_photo)
      = Ret (json 400 (BError "No photo uploaded"))
  ∧ files (world_of (put_photo opts 1 None world_with_photo))
      = files world_with_photo.
Proof.
  split; [reflexivity|]. split; [reflexivity|].
  pose proof (put_photo_without_file opts 1 world_with_photo vase
                eq_refl eq_refl) as (Hv & _ & Hf & _).
  split; [exact Hv | exact Hf].
Defined.

(** X5.  A registration without a name that brings a file answers 400 and
    writes no row, but the file multer stored stays in the cache directory:
    the handler does not remove it. *)
Theorem register_without_name_keeps_upload o n d f w :
  truthy n = false →
  let run := register o n d (Some f) w in
  value_of run = Ret (json 400 (BError "Missing inventory name"))
  ∧ table (world_of run) = table w
  ∧ files (world_of run) !! path_join (opt_cache o) (filename f)
      = Some (content f)
  ∧ events (log_of run) = [EvUpload (path_join (opt_cache o) (filename f))].
Proof.
  intros Hn. unfold_handlers. run. rewrite Hn. run.
  repeat split. apply lookup_insert_eq.
Qed.

Lemma register_without_name_keeps_upload_witness :
  truthy (JStr "") = false
  ∧ value_of (register opts (JStr "") (JStr "a lamp") (Some new_upload)
                world_without_photo)
      = Ret (json 400 (BError "Missing inventory name"))
  ∧ files (world_of (register opts (JStr "") (JStr "a lamp") (Some new_upload)
                       world_without_photo)) !! "./cache/new" = Some "PNG".
Proof.
  split; [reflexivity|].
  pose proof (register_without_name_keeps_upload opts (JStr "") (JStr "a lamp")
                new_upload world_without_photo eq_refl) as (Hv & _ & Hf & _).
  split; [exact Hv | exact Hf].
Defined.

(** ** Requests that only read *)

(** X6.  The listing, the lookup, the photo fetch, the search and an
    unmatched route change nothing but the store's pending verdicts:
    table, counter, files and locks are the same afterwards, whatever the
    store answers. *)
Theorem reads_change_nothing o req w :
  reads_only req = true →
  let w' := world_of (handle o req w) in
  table w' = table w ∧ auto_inc w' = auto_inc w
  ∧ files w' = files w ∧ locked w' = locked w.
Proof.
  intros Hreads.
  destruct req as [n d file| |i|i n d|i|i|i file|i h|];
    try discriminate Hreads;
    unfold_handlers; destruct w as [t a fs lk fl sb]; branch.
  all: repeat split.
Qed.

Lemma reads_change_nothing_witness :
  reads_only (PostSearch 1 (JStr "on")) = true
  ∧ table (world_of (handle opts (PostSearch 1 (JStr "on")) world_with_photo))
      = table world_with_photo.
Proof.
  split; [reflexivity|].
  apply (reads_change_nothing opts (PostSearch 1 (JStr "on")) world_with_photo).
  reflexivity.
Defined.

(** ** Fetching a photo, the successful case *)

Lemma truthy_col_true c : truthy_col c = true → ∃ s, c = Some s ∧ s ≠ "".
Proof.
  destruct c as [s|]; [|discriminate]. simpl.
  destruct (String.eqb_spec s ""); [discriminate|eauto].
Qed.

(** X7.  With the SELECT accepted, the photo handler hands a file to
    [res.sendFile], with Content-Type [image/jpeg], exactly when the id has
    a row, the row's [photo] is a non-empty name and the file of that name
    exists in the cache directory, and the file handed over is that one; in
    every other case the handler itself answers 404. *)
Theorem get_photo_sends_file_iff o i w path :
  accepted 1 (faults w) = true →
  ((∃ r, value_of (get_photo o i w) = Ret r ∧ sends_file r path)
   ↔ (∃ item p, find_item i w = Some item ∧ photo item = Some p ∧ p ≠ ""
        ∧ path = path_join (opt_cache o) p ∧ is_Some (files w !! path)))
  ∧ ((∃ r q, value_of (get_photo o i w) = Ret r ∧ sends_file r q)
     ∨ (∃ msg, value_of (get_photo o i w) = Ret (json 404 (BError msg)))).
Proof.
  intros Hok. split; [split|].
  - intros (r & Hv & Hct & Hfile). revert Hv.
    unfold_handlers. split_faults w; branch.
    all: intros [= <-]; try discriminate Hfile.
    all: injection Hfile as <-.
    all: match goal with
         | H : truthy_col (photo ?r) = true |- _ =>
             apply truthy_col_true in H as (p & Hp & Hne); exists r, p
         end.
    all: rewrite Hp in *; cbn [col_text default Datatypes.id] in *.
    all: match goal with
         | H : bool_decide _ = true |- _ => apply bool_decide_eq_true_1 in H
         end.
    all: repeat split; auto.
  - intros (item & p & Hitem & Hp & Hne & -> & Hfile).
    destruct (find_item_rows _ _ _ Hitem) as [rest Hrows].
    exists (send_file "image/jpeg" (path_join (opt_cache o) p)).
    split; [|split; reflexivity].
    unfold_handlers. split_faults w.
    all: run; rewrite Hrows; run.
    all: rewrite Hp, truthy_col_some by exact Hne; run.
    all: cbn [col_text default Datatypes.id].
    all: rewrite bool_decide_eq_true_2 by exact Hfile; reflexivity.
  - unfold_handlers. split_faults w; branch.
    all: first [ right; eexists; reflexivity
               | left; do 2 eexists; split; [reflexivity | split; reflexivity] ].
Qed.

Lemma get_photo_sends_file_iff_witness :
  accepted 1 (faults world_with_photo) = true
  ∧ ∃ r, value_of (get_photo opts 1 world_with_photo) = Ret r
         ∧ sends_file r "./cache/old".
Proof.
  split; [reflexivity|].
  apply (get_photo_sends_file_iff opts 1 world_with_photo "./cache/old" eq_refl).
  exists vase, "old". repeat split; [discriminate | vm_compute; eauto].
Defined.

(** ** What a request leaves alone *)

Lemma update_row_other n d i j (t : list row) :
  j ≠ i →
  filter (λ r, id r = j) (update_row n d i <$> t) = filter (λ r, id r = j) t.
Proof.
  intros Hne. induction t as [|r t IH]; [reflexivity|].
  rewrite fmap_cons, !filter_cons, update_row_id, IH.
  destruct (decide (id r = j)) as [E|E]; [|reflexivity].
  unfold update_row. rewrite decide_False by congruence. reflexivity.
Qed.

Lemma set_photo_row_other p i j (t : list row) :
  j ≠ i →
  filter (λ r, id r = j) (set_photo_row p i <$> t) = filter (λ r, id r = j) t.
Proof.
  intros Hne. induction t as [|r t IH]; [reflexivity|].
  rewrite fmap_cons, !filter_cons, set_photo_row_id, IH.
  destruct (decide (id r = j)) as [E|E]; [|reflexivity].
  unfold set_photo_row. rewrite decide_False by congruence. reflexivity.
Qed.

Lemma delete_other i j (t : list row) :
  j ≠ i →
  filter (λ r, id r = j) (filter (λ r, id r ≠ i) t) = filter (λ r, id r = j) t.
Proof.
  intros Hne. induction t as [|r t IH]; [reflexivity|].
  rewrite !filter_cons.
  destruct (decide (id r ≠ i)) as [E|E], (decide (id r = j)) as [E'|E'].
  - rewrite filter_cons, decide_True by exact E'. rewrite IH. reflexivity.
  - rewrite filter_cons, decide_False by exact E'. exact IH.
  - destruct E. congruence.
  - exact IH.
Qed.

(** X8.  A request that addresses id [i] leaves the rows of every other id
    as they were, whatever the store answers. *)
Theorem other_rows_untouched o req i j w :
  addressed req = Some i → j ≠ i →
  filter (λ r, id r = j) (table (world_of (handle o req w)))
  = filter (λ r, id r = j) (table w).
Proof.
  intros Haddr Hne.
  destruct req as [n d file| |k|k n d|k|k|k file|k h|];
    try discriminate Haddr; injection Haddr as ->;
    unfold_handlers; destruct w as [t a fs lk fl sb]; branch.
  all: rewrite ?update_row_other, ?set_photo_row_other, ?delete_other by exact Hne.
  all: reflexivity.
Qed.

Lemma other_rows_untouched_witness :
  addressed (DeleteItem 1) = Some 1 ∧ 2 ≠ 1
  ∧ filter (λ r, id r = 2)
      (table (world_of (handle opts (DeleteItem 1) world_without_photo)))
    = filter (λ r, id r = 2) (table world_without_photo).
Proof.
  split; [reflexivity|]. split; [discriminate|].
  apply (other_rows_untouched opts (DeleteItem 1) 1 2 world_without_photo);
    [reflexivity | discriminate].
Defined.

(** X9.  No request changes the id of a row or invents one: either the
    counter stays and the ids of the table afterwards are, in order, among
    those before, or the request is a registration that appended one row
    whose id is the counter, which moves up by one. *)
Theorem ids_come_from_the_counter o req w :
  let w' := world_of (handle o req w) in
  (auto_inc w' = auto_inc w ∧ (id <$> table w') `sublist_of` (id <$> table w))
  ∨ (∃ n d file r, req = PostRegister n d file
       ∧ table w' = table w ++ [r] ∧ id r = auto_inc w
       ∧ auto_inc w' = auto_inc w + 1).
Proof.
  destruct req as [n d file| |k|k n d|k|k|k file|k h|];
    unfold_handlers; destruct w as [t a fs lk fl sb]; branch.
  all: first
    [ left; split; [reflexivity|];
      first [ reflexivity
            | rewrite <- list_fmap_compose;
              first [ rewrite (list_fmap_ext (id ∘ update_row _ _ _) id)
                        by (intros; apply update_row_id)
                    | rewrite (list_fmap_ext (id ∘ set_photo_row _ _) id)
                        by (intros; apply set_photo_row_id) ];
              reflexivity
            | apply fmap_sublist, sublist_filter ]
    | right; do 4 eexists; repeat split; reflexivity ].
Qed.

(** ** Ids and lookups *)

Lemma ascending_NoDup (t : list row) : ascending t → NoDup (id <$> t).
Proof.
  induction t as [|r t IH]; [constructor|].
  rewrite ascending_cons. intros [Ht Hr]. rewrite fmap_cons.
  constructor; [|auto].
  intros Hin. apply list_elem_of_fmap in Hin as (x & Hx & Hin).
  rewrite list.Forall_forall in Hr. specialize (Hr x Hin). lia.
Qed.

Lemma filter_absent i (t : list row) :
  i ∉ id <$> t → filter (λ r, id r = i) t = [].
Proof.
  induction t as [|r t IH]; [reflexivity|].
  rewrite fmap_cons, not_elem_of_cons. intros [Hne Hnin].
  rewrite filter_cons, decide_False by congruence. auto.
Qed.

Lemma filter_unique item (t : list row) :
  NoDup (id <$> t) → item ∈ t → filter (λ r, id r = id item) t = [item].
Proof.
  induction t as [|r t IH]; intros Hnd Hin; [by apply elem_of_nil in Hin|].
  rewrite fmap_cons in Hnd. apply NoDup_cons in Hnd as [Hr Hnd].
  rewrite filter_cons. apply elem_of_cons in Hin as [->|Hin].
  - rewrite decide_True by reflexivity. rewrite filter_absent by exact Hr.
    reflexivity.
  - rewrite decide_False; [auto|].
    intros E. apply Hr. rewrite E. apply list_elem_of_fmap. eauto.
Qed.

(** X10.  In every world the server can reach, no two rows share an id, and
    every row of the table is the one a request on its id finds. *)
Theorem every_row_is_found o w :
  reachable o w →
  NoDup (id <$> table w)
  ∧ ∀ item, item ∈ table w → find_item (id item) w = Some item.
Proof.
  intros Hreach. apply reachable_well_keyed in Hreach as [Hasc _].
  apply ascending_NoDup in Hasc. split; [exact Hasc|].
  intros item Hin. unfold find_item. rewrite filter_unique by assumption.
  reflexivity.
Qed.

Lemma every_row_is_found_witness :
  reachable opts (world_of (handle opts (DeleteItem 1) (initial ∅ ∅ [] true)))
  ∧ NoDup (id <$> table (world_of (handle opts (DeleteItem 1)
                                     (initial ∅ ∅ [] true)))).
Proof.
  split; [apply reach_handle, reach_initial|].
  apply (every_row_is_found opts
           (world_of (handle opts (DeleteItem 1) (initial ∅ ∅ [] true)))).
  apply reach_handle, reach_initial.
Defined.

Lemma filter_fresh (t : list row) a r :
  Forall (λ x, id x < a) t → id r = a →
  filter (λ x, id x = a) (t ++ [r]) = [r].
Proof.
  intros Hlt Hr. rewrite filter_app, filter_absent.
  - rewrite filter_cons, decide_True by exact Hr. reflexivity.
  - intros Hin. apply list_elem_of_fmap in Hin as (x & Hx & Hin).
    rewrite list.Forall_forall in Hlt. specialize (Hlt x Hin). lia.
Qed.

(** X11.  In a reachable world, after a registration that the store
    accepts, the lookup of the id the 201 answer reports answers 200 with
    the new item: that id, the name and the description that were given
    (the empty string for an absent description), the uploaded file's name
    as [photo], and the fixed photo URL when that name is non-empty. *)
Theorem register_then_get_item o n d file w :
  reachable o w → truthy n = true → accepted 2 (faults w) = true →
  let w' := world_of (register o n d file w) in
  ∃ created shown,
    value_of (register o n d file w) =
      Ret (json 201 (BCreated "Inventory item created successfully" created))
    ∧ value_of (get_item (ni_id created) w') = Ret (json 200 (BView shown))
    ∧ v_id shown = ni_id created
    ∧ (∀ s, n = JStr s → v_name shown = s)
    ∧ (∀ s, d = JStr s → v_description shown = Some s)
    ∧ (d = JUndefined → v_description shown = Some "")
    ∧ v_photo shown = filename <$> file
    ∧ v_photo shown = ni_photo created
    ∧ (∀ f, file = Some f → filename f ≠ "" →
         v_photoUrl shown = Some (fixed_url (ni_id created)))
    ∧ (file = None → v_photoUrl shown = None).
Proof.
  intros Hreach Hname Hok.
  apply reachable_well_keyed in Hreach as [_ Hlt].
  destruct (bind_truthy (strict_binds w) _ Hname) as [name Hn].
  destruct (bind_or_empty (strict_binds w) d) as [text Hd].
  exists (mkNewItem (auto_inc w) n (js_or d (JStr "")) (filename <$> file)),
    (mkView (auto_inc w) name (Some text) (filename <$> file)
       (photo_url (mkRow (auto_inc w) name (Some text) (filename <$> file)))).
  assert (∀ s, n = JStr s → name = s) as Hgiven.
  { intros s ->. cbn in Hn. congruence. }
  assert (∀ s, d = JStr s → Some text = Some s) as Htext.
  { intros s ->. unfold js_or in Hd. cbn [truthy] in Hd.
    destruct (String.eqb s "") eqn:E; cbn in Hd.
    - apply String.eqb_eq in E as ->. congruence.
    - congruence. }
  assert (d = JUndefined → Some text = Some "") as Habsent.
  { intros ->. cbn in Hd. congruence. }
  assert (∀ f, file = Some f → filename f ≠ "" →
          photo_url (mkRow (auto_inc w) name (Some text) (filename <$> file))
          = Some (fixed_url (auto_inc w))) as Hurl.
  { intros f -> Hf. apply (photo_url_fixed (mkRow _ _ _ _)).
    apply truthy_col_some, Hf. }
  assert (file = None →
          photo_url (mkRow (auto_inc w) name (Some text) (filename <$> file))
          = None) as Hnourl.
  { intros ->. reflexivity. }
  cbn [ni_id ni_photo v_id v_name v_description v_photo v_photoUrl].
  unfold_handlers. run. rewrite Hname. cbn [negb].
  split_faults w.
  all: destruct file as [f|]; run; rewrite Hn, Hd; run.
  all: rewrite (filter_fresh t a) by (exact Hlt || reflexivity); run.
  all: repeat split; assumption.
Qed.

Lemma register_then_get_item_witness :
  reachable opts (initial ∅ ∅ [] true)
  ∧ truthy (JStr "Lamp") = true
  ∧ accepted 2 (faults (initial ∅ ∅ [] true)) = true
  ∧ ∃ created shown,
      value_of (register opts (JStr "Lamp") JUndefined None (initial ∅ ∅ [] true))
        = Ret (json 201 (BCreated "Inventory item created successfully" created))
      ∧ value_of (get_item (ni_id created)
           (world_of (register opts (JStr "Lamp") JUndefined None
                        (initial ∅ ∅ [] true))))
        = Ret (json 200 (BView shown))
      ∧ v_name shown = "Lamp" ∧ v_description shown = Some "".
Proof.
  split; [apply reach_initial|]. split; [reflexivity|]. split; [reflexivity|].
  destruct (register_then_get_item opts (JStr "Lamp") JUndefined None
              (initial ∅ ∅ [] true) (reach_initial _ _ _ _ _) eq_refl eq_refl)
    as (created & shown & Hr & Hg & _ & Hn & _ & Hd & _).
  exists created, shown. split; [exact Hr|]. split; [exact Hg|].
  split; [apply Hn; reflexivity | apply Hd; reflexivity].
Defined.

(** ** Photos: upload, then fetch *)

Lemma append_cancel s a b : s +:+ a = s +:+ b → a = b.
Proof.
  induction s as [|c s IH]; [auto|].
  change (String c s +:+ a) with (String c (s +:+ a)).
  change (String c s +:+ b) with (String c (s +:+ b)).
  intros [= E]. auto.
Qed.

Lemma path_join_inj dir a b : path_join dir a = path_join dir b → a = b.
Proof.
  unfold path_join. intros E. apply append_cancel in E.
  apply (append_cancel "/") in E. exact E.
Qed.

(** X12.  After a photo replacement that the store accepts, with a file
    whose name is not the one the row held, the photo handler of the same
    id hands the new file to [res.sendFile], with Content-Type
    [image/jpeg], and that file holds the uploaded content. *)
Theorem put_photo_then_get_photo o i f w item :
  find_item i w = Some item → accepted 4 (faults w) = true →
  filename f ≠ "" → photo item ≠ Some (filename f) →
  let w' := world_of (put_photo o i (Some f) w) in
  (∃ r, value_of (get_photo o i w') = Ret r
        ∧ sends_file r (path_join (opt_cache o) (filename f)))
  ∧ files w' !! path_join (opt_cache o) (filename f) = Some (content f).
Proof.
  intros Hitem Hok Hname Hnew.
  pose proof (find_item_id _ _ _ Hitem) as Hid.
  destruct (find_item_rows _ _ _ Hitem) as [rest Hrows].
  pose proof (truthy_col_some _ Hname) as Htruthy.
  assert (∀ p, photo item = Some p →
          path_join (opt_cache o) p ≠ path_join (opt_cache o) (filename f))
    as Hother.
  { intros p Hp E. apply path_join_inj in E. congruence. }
  unfold_handlers. split_faults w.
  all: run; rewrite Hrows; run.
  all: destruct (truthy_col (photo item)) eqn:Hcol; run.
  all: try (apply truthy_col_true in Hcol as (p & Hp & _);
            specialize (Hother p Hp); rewrite Hp;
            cbn [col_text default Datatypes.id];
            destruct (decide (_ ∧ _)) as [Hd|Hd]; run).
  all: rewrite filter_fmap_id by apply set_photo_row_id.
  all: rewrite Hrows; cbn [fmap list_fmap]; run.
  all: unfold set_photo_row; rewrite decide_True by exact Hid.
  all: cbn [photo]; rewrite Htruthy; run; cbn [col_text default Datatypes.id].
  all: rewrite ?lookup_delete_ne by exact Hother.
  all: rewrite lookup_insert_eq.
  all: rewrite bool_decide_eq_true_2 by eauto; run.
  all: split; [eexists; split; [reflexivity | split; reflexivity] | reflexivity].
Qed.

Lemma put_photo_then_get_photo_witness :
  find_item 1 world_with_photo = Some vase
  ∧ accepted 4 (faults world_with_photo) = true
  ∧ files (world_of (put_photo opts 1 (Some new_upload) world_with_photo))
      !! "./cache/new" = Some "PNG"
  ∧ ∃ r, value_of (get_photo opts 1
           (world_of (put_photo opts 1 (Some new_upload) world_with_photo)))
         = Ret r
         ∧ sends_file r "./cache/new".
Proof.
  split; [reflexivity|]. split; [reflexivity|].
  destruct (put_photo_then_get_photo opts 1 new_upload world_with_photo vase)
    as [Hsent Hfile]; [reflexivity | reflexivity | discriminate | discriminate |].
  split; [exact Hfile | exact Hsent].
Defined.

(** ** Partial update: what an absent or null field does *)

(** X13.  On an existing item, with the three statements accepted, a
    partial update never changes the id or the photo; a field that is
    absent or JSON [null] keeps its stored value; and the answer is 200
    with the row as it is stored afterwards, or 500 with the row as it
    was. *)
Theorem put_item_absent_or_null_keeps i n d w item :
  find_item i w = Some item → accepted 3 (faults w) = true →
  let run := put_item i n d w in
  ∃ item',
    find_item i (world_of run) = Some item'
    ∧ id item' = id item ∧ photo item' = photo item
    ∧ (n = JUndefined ∨ n = JNull → name item' = name item)
    ∧ (d = JUndefined ∨ d = JNull → description item' = description item)
    ∧ (value_of run =
         Ret (json 200 (BUpdated "Item updated successfully" (Some item')))
       ∨ (value_of run = Ret (json 500 (BError "Database error"))
          ∧ item' = item)).
Proof.
  intros Hitem Hok.
  pose proof (find_item_id _ _ _ Hitem) as Hid.
  destruct (find_item_rows _ _ _ Hitem) as [rest Hrows].
  unfold_handlers. split_faults w.
  all: run; rewrite Hrows; run.
  all: destruct (bind_param sb n) as [n'|] eqn:Hn;
       [destruct (bind_param sb d) as [d'|] eqn:Hd|]; run.
  all: try (exists item; rewrite Hrows; repeat split; auto; fail).
  all: rewrite filter_fmap_id by apply update_row_id.
  all: rewrite Hrows; cbn [fmap list_fmap head].
  all: eexists; split; [reflexivity|].
  all: unfold update_row; rewrite decide_True by exact Hid.
  all: cbn [id name description photo].
  all: repeat split; auto.
  all: intros [-> | ->]; destruct sb; cbn in Hn, Hd; try discriminate;
       try injection Hn as <-; try injection Hd as <-; reflexivity.
Qed.

Lemma put_item_absent_or_null_keeps_witness :
  find_item 1 world_with_photo = Some vase
  ∧ accepted 3 (faults world_with_photo) = true
  ∧ ∃ item',
      find_item 1 (world_of (put_item 1 JNull (JStr "Qing") world_with_photo))
        = Some item'
      ∧ name item' = name vase.
Proof.
  split; [reflexivity|]. split; [reflexivity|].
  destruct (put_item_absent_or_null_keeps 1 JNull (JStr "Qing")
              world_with_photo vase eq_refl eq_refl)
    as (item' & Hf & _ & _ & Hn & _).
  exists item'. split; [exact Hf | apply Hn; right; reflexivity].
Defined.

(** ** After a deletion *)

(** X14.  Once an item is deleted (the statements being accepted), every
    request that addresses its id answers 404 with
    [{"error": "Item not found"}]. *)
Theorem deleted_item_is_gone o i w item req :
  find_item i w = Some item → accepted 3 (faults w) = true →
  addressed req = Some i →
  value_of (handle o req (world_of (delete_item o i w)))
    = Ret (json 404 (BError "Item not found")).
Proof.
  intros Hitem Hok Haddr.
  destruct (find_item_rows _ _ _ Hitem) as [rest Hrows].
  destruct req as [n d file| |j|j n d|j|j|j file|j h|];
    try discriminate Haddr; injection Haddr as ->;
    unfold_handlers; split_faults w.
  all: run; rewrite Hrows; run.
  all: destruct (truthy_col (photo item)); run.
  all: try destruct (decide (_ ∧ _)); run.
  all: try destruct file as [f|]; run.
  all: rewrite filter_out_none; reflexivity.
Qed.

Lemma deleted_item_is_gone_witness :
  find_item 1 world_with_photo = Some vase
  ∧ accepted 3 (faults world_with_photo) = true
  ∧ value_of (handle opts (GetItem 1)
       (world_of (delete_item opts 1 world_with_photo)))
    = Ret (json 404 (BError "Item not found")).
Proof.
  split; [reflexivity|]. split; [reflexivity|].
  apply (deleted_item_is_gone opts 1 world_with_photo vase (GetItem 1));
    reflexivity.
Defined.

(** ** Files a request may remove *)

(** X15.  Whatever the store answers, a request removes no file of the
    cache directory other than the blob of the row it addresses: a file
    that exists and is not that blob still exists afterwards. *)
Theorem only_the_addressed_blob_is_removed o req w q :
  is_Some (files w !! q) →
  (∀ i item p, addressed req = Some i → find_item i w = Some item →
     photo item = Some p → q ≠ path_join (opt_cache o) p) →
  is_Some (files (world_of (handle o req w)) !! q).
Proof.
  intros Hq Hblob.
  destruct req as [n d file| |j|j n d|j|j|j file|j h|];
    unfold_handlers; cbn [addressed] in Hblob;
    destruct w as [t a fs lk fl sb]; cbn [files table] in *; branch.
  all: repeat match goal with
         | |- is_Some (<[_:=_]> _ !! _) => apply lookup_insert_is_Some'; right
         | |- is_Some (delete _ _ !! _) =>
             apply lookup_delete_is_Some; split
         end.
  all: try exact Hq.
  all: match goal with
       | H : truthy_col (photo ?r) = true |- _ =>
           apply truthy_col_true in H as (p & Hp & _);
           rewrite Hp; cbn [col_text default Datatypes.id];
           intros E; apply (Hblob j r p eq_refl);
             [rewrite Erows; reflexivity | exact Hp | congruence]
       end.
Qed.

Lemma only_the_addressed_blob_is_removed_witness :
  is_Some (files (mkWorld [vase] 2
                    {[ "./cache/old" := "JFIF"; "./cache/other" := "GIF" ]}
                    ∅ [] true) !! "./cache/other")
  ∧ is_Some (files (world_of (handle opts (DeleteItem 1)
       (mkWorld [vase] 2 {[ "./cache/old" := "JFIF"; "./cache/other" := "GIF" ]}
          ∅ [] true))) !! "./cache/other").
Proof.
  assert (is_Some (files (mkWorld [vase] 2
            {[ "./cache/old" := "JFIF"; "./cache/other" := "GIF" ]}
            ∅ [] true) !! "./cache/other")) as Hq.
  { vm_compute. eauto. }
  split; [exact Hq|].
  apply (only_the_addressed_blob_is_removed opts (DeleteItem 1) _ _ Hq).
  intros i item p [= <-] Hitem Hp. vm_compute in Hitem.
  injection Hitem as <-. injection Hp as <-. vm_compute. discriminate.
Defined.

(** * The in-memory server *)

Lemma memory_assign_id n d it : Memory.id (Memory.assign n d it) = Memory.id it.
Proof. unfold Memory.assign. destruct (truthy n), (truthy d); reflexivity. Qed.

Lemma memory_assign_photo n d it :
  Memory.photo (Memory.assign n d it) = Memory.photo it.
Proof. unfold Memory.assign. destruct (truthy n), (truthy d); reflexivity. Qed.

Lemma change_first_ids i f inventory :
  (∀ it, Memory.id (f it) = Memory.id it) →
  Memory.id <$> Memory.change_first i f inventory = Memory.id <$> inventory.
Proof.
  intros Hf. induction inventory as [|it rest IH]; [reflexivity|].
  simpl. destruct (decide (Memory.id it = i)).
  - rewrite !fmap_cons, Hf. reflexivity.
  - rewrite !fmap_cons, IH. reflexivity.
Qed.

Lemma change_first_other i j f inventory :
  (∀ it, Memory.id (f it) = Memory.id it) → j ≠ i →
  Memory.find j (Memory.change_first i f inventory) = Memory.find j inventory.
Proof.
  intros Hf Hne. unfold Memory.find.
  induction inventory as [|it rest IH]; [reflexivity|].
  simpl. destruct (decide (Memory.id it = i)) as [E|E].
  - rewrite !filter_cons, Hf, !decide_False by congruence. reflexivity.
  - rewrite !filter_cons. destruct (decide (Memory.id it = j)); [reflexivity|].
    exact IH.
Qed.

Lemma change_first_found i f inventory it :
  (∀ it, Memory.id (f it) = Memory.id it) →
  Memory.find i inventory = Some it →
  Memory.find i (Memory.change_first i f inventory) = Some (f it).
Proof.
  intros Hf. unfold Memory.find.
  induction inventory as [|x rest IH]; [discriminate|].
  simpl. rewrite filter_cons. destruct (decide (Memory.id x = i)) as [E|E].
  - intros [= ->]. rewrite filter_cons, decide_True by (rewrite Hf; exact E).
    reflexivity.
  - intros H. rewrite filter_cons, decide_False by exact E. auto.
Qed.

(** X16.  The in-memory partial update works in place: the array keeps its
    length and the ids in their order, the items of every other id are the
    same, no photo changes, and the item sent back is the one a lookup of
    the id finds afterwards. *)
Theorem memory_put_item_in_place i n d inventory :
  let after := (Memory.put_item i n d inventory).2 in
  Memory.id <$> after = Memory.id <$> inventory
  ∧ Memory.photo <$> after = Memory.photo <$> inventory
  ∧ (∀ j, j ≠ i → Memory.find j after = Memory.find j inventory)
  ∧ (∀ it, (Memory.put_item i n d inventory).1.2 = Some it →
       Memory.find i after = Some it).
Proof.
  unfold Memory.put_item.
  destruct (Memory.find i inventory) as [it|] eqn:Hfind; cbn [fst snd].
  - split; [apply change_first_ids, memory_assign_id|].
    split; [|split].
    + clear Hfind. induction inventory as [|x rest IH]; [reflexivity|].
      simpl. destruct (decide (Memory.id x = i)).
      * rewrite !fmap_cons, memory_assign_photo. reflexivity.
      * rewrite !fmap_cons, IH. reflexivity.
    + intros j Hne. apply change_first_other; [apply memory_assign_id|exact Hne].
    + intros it' [= <-]. apply change_first_found; [apply memory_assign_id|exact Hfind].
  - repeat split; auto. discriminate.
Qed.

(** ** Ids of the in-memory server *)

















(** X20.  The in-memory partial update on an existing item answers 200
    with the item as it is stored afterwards: each of name and description
    is replaced by the value given when that value is truthy, and left as
    it was when it is absent, empty or otherwise falsy. *)
Theorem memory_put_item_updates_if_present i n d inventory it :
  Memory.find i inventory = Some it →
  ∃ it',
    Memory.put_item i n d inventory
      = (200%nat, Some it', (Memory.put_item i n d inventory).2)
    ∧ Memory.find i (Memory.put_item i n d inventory).2 = Some it'
    ∧ Memory.name it' = (if truthy n then n else Memory.name it)
    ∧ Memory.description it' = (if truthy d then d else Memory.description it)
    ∧ Memory.id it' = Memory.id it ∧ Memory.photo it' = Memory.photo it.
Proof.
  intros Hfind. exists (Memory.assign n d it).
  unfold Memory.put_item. rewrite Hfind. cbn [snd].
  split; [reflexivity|].
  split; [apply change_first_found; [apply memory_assign_id | exact Hfind]|].
  unfold Memory.assign. destruct (truthy n), (truthy d); repeat split.
Qed.

Lemma memory_put_item_updates_if_present_witness :
  Memory.find 1 [Memory.mkItem 1 (JStr "Vase") (JStr "Ming") None]
    = Some (Memory.mkItem 1 (JStr "Vase") (JStr "Ming") None)
  ∧ ∃ it',
      Memory.find 1 (Memory.put_item 1 (JStr "Urn") (JStr "")
                       [Memory.mkItem 1 (JStr "Vase") (JStr "Ming") None]).2
        = Some it'
      ∧ Memory.name it' = JStr "Urn" ∧ Memory.description it' = JStr "Ming".
Proof.
  split; [reflexivity|].
  destruct (memory_put_item_updates_if_present 1 (JStr "Urn") (JStr "")
              [Memory.mkItem 1 (JStr "Vase") (JStr "Ming") None]
              (Memory.mkItem 1 (JStr "Vase") (JStr "Ming") None) eq_refl)
    as (it' & _ & Hf & Hn & Hd & _).
  exists it'. split; [exact Hf|]. split; [exact Hn | exact Hd].
Defined.
